(** * redisgraph-py: the in-memory graph mirror and its batched commit

    A shallow embedding of [redisgraph/rg_utils.py], [redisgraph/node.py] and
    [redisgraph/graph.py], and the properties of the value formatter, the
    identifier validator, node rendering and equality, [add_edge], [delete]
    and the batched flush.

    Conventions of the embedding.
    - A Python [str] is a [string]: the sequence of its characters.  The code
      only ever inspects the double quote, the comma, the line feed and the
      ASCII letters and digits, so characters are kept as [ascii].
    - A Python [int] is a [Z]; [%] is [Z.modulo] (both take the sign of the
      divisor) with the division by zero raised explicitly.
    - An exception is a value of [exn]; a computation that may raise returns
      [exn + A].  Methods of [Graph] run in the monad [M]: they thread the
      object, the connection and the logger, and what was written before an
      exception is raised stays written.
    - A [dict] is an association list in insertion order with distinct keys.
    - Property values are the scalars [None], [bool], [int], [str] and
      [bytes]; floating point values (among them NaN, which [pd.notnull]
      also reports as null) are not part of the model. *)

From Stdlib Require Import ZArith List String Ascii Bool Lia DecimalString.
Import ListNotations.

#[local] Open Scope string_scope.
#[local] Open Scope Z_scope.

(* ================================================================= *)
(** ** Exceptions and results *)

Inductive exn : Type :=
| ValueError (msg : string)
| AssertionError
| ZeroDivisionError
| IndexError
| UnicodeDecodeError
| ForeignError (what : string).   (* raised by a collaborator, e.g. redis.ResponseError *)

Definition result (A : Type) : Type := (exn + A)%type.

Definition ok {A} (a : A) : result A := inr a.
Definition raise {A} (e : exn) : result A := inl e.

Definition rbind {A B} (r : result A) (k : A -> result B) : result B :=
  match r with
  | inl e => inl e
  | inr a => k a
  end.

(** [[f(x) for x in l]], stopping at the first element that raises. *)
Fixpoint rmap {A B} (f : A -> result B) (l : list A) : result (list B) :=
  match l with
  | [] => ok []
  | x :: l' =>
      rbind (f x) (fun y => rbind (rmap f l') (fun ys => ok (y :: ys)))
  end.

(* ================================================================= *)
(** ** Python text *)

Module PyStr.

Definition quote : ascii := "034"%char.
Definition comma : ascii := ","%char.
Definition LF : ascii := "010"%char.

(** [v[0]] *)
Definition first (v : string) : option ascii :=
  match v with
  | EmptyString => None
  | String c _ => Some c
  end.

(** [v[-1]] *)
Fixpoint last (v : string) : option ascii :=
  match v with
  | EmptyString => None
  | String c EmptyString => Some c
  | String _ v' => last v'
  end.

(** [v[:-1]] *)
Fixpoint drop_last (v : string) : string :=
  match v with
  | EmptyString => EmptyString
  | String _ EmptyString => EmptyString
  | String c v' => String c (drop_last v')
  end.

(** [len(v)] *)
Definition len (v : string) : Z := Z.of_nat (String.length v).

(** [c1 != c2] on the result of an index *)
Definition is_char (c : ascii) (o : option ascii) : bool :=
  match o with
  | Some d => Ascii.eqb d c
  | None => false
  end.

(** [sep.join(l)] *)
Definition join (sep : string) (l : list string) : string := String.concat sep l.

End PyStr.

(* ================================================================= *)
(** ** Scalar values *)

Inductive value : Type :=
| VNone
| VBool (b : bool)
| VInt (z : Z)
| VStr (s : string)
| VBytes (b : string).

(** [pd.notnull(v)] on a scalar of the model. *)
Definition notnull (v : value) : bool :=
  match v with
  | VNone => false
  | _ => true
  end.

(** [a == b] on scalars: [bool] is a subclass of [int], so [True == 1];
    values of unrelated types are never equal. *)
Definition int_of_bool (b : bool) : Z := if b then 1 else 0.

Definition py_eq (a b : value) : bool :=
  match a, b with
  | VNone, VNone => true
  | VBool x, VBool y => Bool.eqb x y
  | VInt x, VInt y => Z.eqb x y
  | VBool x, VInt y => Z.eqb (int_of_bool x) y
  | VInt x, VBool y => Z.eqb x (int_of_bool y)
  | VStr x, VStr y => String.eqb x y
  | VBytes x, VBytes y => String.eqb x y
  | _, _ => false
  end.

(** [str(z)] for an [int]. *)
Definition str_of_int (z : Z) : string := NilZero.string_of_int (Z.to_int z).

(* ================================================================= *)
(** ** rg_utils.py: the identifier pattern *)

(** The pieces of a regular expression that [VALID_CYPHER_IDENIFIER] uses, and
    [Pattern.match] for them: [^] holds at the start of the text, [$] at its
    end and also just before a line feed that ends it, a class takes one
    character, a starred class takes as many as it can and gives back until the
    rest matches. *)
Inductive re_item : Type :=
| Bol
| Eol
| Class (cls : ascii -> bool)
| Star (cls : ascii -> bool).

Definition in_range (lo hi c : ascii) : bool :=
  (N.leb (N_of_ascii lo) (N_of_ascii c) && N.leb (N_of_ascii c) (N_of_ascii hi))%bool.

Definition is_lower (c : ascii) : bool := in_range "a" "z" c.
Definition is_upper (c : ascii) : bool := in_range "A" "Z" c.
Definition is_digit (c : ascii) : bool := in_range "0" "9" c.
Definition is_underscore (c : ascii) : bool := Ascii.eqb c "_".

(** [[a-zA-Z_]] *)
Definition ident_start (c : ascii) : bool :=
  (is_lower c || is_upper c || is_underscore c)%bool.

(** [[0-9a-zA-Z_]] *)
Definition ident_char (c : ascii) : bool :=
  (is_digit c || is_lower c || is_upper c || is_underscore c)%bool.

Definition at_eol (s : string) : bool :=
  match s with
  | EmptyString => true
  | String c EmptyString => Ascii.eqb c PyStr.LF
  | _ => false
  end.

Fixpoint star_then (cls : ascii -> bool) (k : bool -> string -> bool)
  (moved : bool) (s : string) : bool :=
  match s with
  | String c s' => ((cls c && star_then cls k true s') || k moved s)%bool
  | EmptyString => k moved s
  end.

(** [moved] tells whether a character was consumed since position 0. *)
Fixpoint match_here (p : list re_item) (moved : bool) (s : string) : bool :=
  match p with
  | [] => true
  | Bol :: p' => (negb moved && match_here p' moved s)%bool
  | Eol :: p' => (at_eol s && match_here p' moved s)%bool
  | Class cls :: p' =>
      match s with
      | String c s' => (cls c && match_here p' true s')%bool
      | EmptyString => false
      end
  | Star cls :: p' => star_then cls (match_here p') moved s
  end.

(** [pattern.match(s) is not None] *)
Definition re_match (p : list re_item) (s : string) : bool := match_here p false s.

(** [re.compile(r'^[a-zA-Z_][0-9a-zA-Z_]*$')] *)
Definition VALID_CYPHER_IDENIFIER : list re_item :=
  [Bol; Class ident_start; Star ident_char; Eol].

(** [str(msg)] where [msg] starts as [None]. *)
Definition msg_text (msg : option string) : string :=
  match msg with
  | Some m => m
  | None => "None"
  end.

(** [validate_cypher_identifier]: the warnings handed to the module logger,
    and the value returned or the exception raised. *)
Definition validate_cypher_identifier
  (identifier : option string) (none_is_okay raise_on_invalid : bool)
  : list string * result bool :=
  let '(is_valid, msg) :=
    match identifier with
    | None =>
        if negb none_is_okay
        then (false, Some "Invalid Cypher identifier. Found 'None'")
        else (true, None)
    | Some _ => (true, None)
    end in
  let '(is_valid, msg) :=
    match is_valid, identifier with
    | true, Some s =>
        if negb (re_match VALID_CYPHER_IDENIFIER s)
        then (false, Some ("Invalid Cypher identifier: '" ++ s ++ "'"))
        else (is_valid, msg)
    | _, _ => (is_valid, msg)
    end in
  if negb is_valid then
    if raise_on_invalid then ([], raise (ValueError (msg_text msg)))
    else ([msg_text msg], ok is_valid)
  else ([], ok is_valid).

(** The rule of the specification: non-empty, a letter or underscore first,
    then letters, digits and underscores only. *)
Fixpoint all_chars (p : ascii -> bool) (s : string) : bool :=
  match s with
  | EmptyString => true
  | String c s' => (p c && all_chars p s')%bool
  end.

Definition spec_valid_identifier (s : string) : bool :=
  match s with
  | EmptyString => false
  | String c s' => (ident_start c && all_chars ident_char s')%bool
  end.

(* ================================================================= *)
(** ** dict *)

Definition dict (V : Type) : Type := list (string * V).

(** [d.get(k)] *)
Fixpoint dict_get {V} (k : string) (d : dict V) : option V :=
  match d with
  | [] => None
  | (k', v) :: d' => if String.eqb k k' then Some v else dict_get k d'
  end.

(** [d.values()] *)
Definition dict_values {V} (d : dict V) : list V := map snd d.

(** [list(d)] *)
Definition dict_keys {V} (d : dict V) : list string := map fst d.

(** [a == b] on dicts of scalars: as many entries, and every key of [a] is a
    key of [b] with an equal value. *)
Definition dict_eq (a b : dict value) : bool :=
  (Nat.eqb (List.length a) (List.length b)
   && forallb (fun kv =>
                 match dict_get (fst kv) b with
                 | Some w => py_eq (snd kv) w
                 | None => false
                 end) a)%bool.

(** What it means for two property mappings to match: every name is bound on
    both sides or on neither, and where bound the two values are equal. *)
Definition value_match (a b : option value) : Prop :=
  match a, b with
  | None, None => True
  | Some v, Some w => py_eq v w = true
  | _, _ => False
  end.

Definition props_match (a b : dict value) : Prop :=
  forall k, value_match (dict_get k a) (dict_get k b).

(* ================================================================= *)
(** ** node.py: the Node record and its equality *)

Record Node : Type := mkNode {
  id : option Z;
  alias : option string;
  label : option string;
  properties : dict value
}.

Definition set_alias (a : option string) (n : Node) : Node :=
  {| id := id n; alias := a; label := label n; properties := properties n |}.

Definition set_properties (p : dict value) (n : Node) : Node :=
  {| id := id n; alias := alias n; label := label n; properties := p |}.

(** [a != b] on an optional text. *)
Definition opt_str_ne (a b : option string) : bool :=
  match a, b with
  | None, None => false
  | Some x, Some y => negb (String.eqb x y)
  | _, _ => true
  end.

(** [self.id is not None and rhs.id is not None and self.id == rhs.id] *)
Definition same_remote_id (a b : option Z) : bool :=
  match a, b with
  | Some x, Some y => Z.eqb x y
  | _, _ => false
  end.

(** [Node.__eq__] *)
Definition Node_eq (self rhs : Node) : bool :=
  if same_remote_id (id self) (id rhs) then true
  else if opt_str_ne (label self) (label rhs) then false
  else if negb (Nat.eqb (List.length (properties self)) (List.length (properties rhs))) then false
  else if negb (dict_eq (properties self) (properties rhs)) then false
  else true.

(** Truth value of an optional text: [None] and the empty text are false. *)
Definition truthy (o : option string) : bool :=
  match o with
  | Some (String _ _) => true
  | _ => false
  end.

Definition text_or_empty (o : option string) : string :=
  match o with
  | Some s => s
  | None => ""
  end.

(** Modelled from the spec: edge.py is not among the sources.  An edge holds
    its two endpoint nodes, an optional relation and a property mapping of the
    same shape as a node's; [add_edge] reads only the endpoints' aliases. *)
Record Edge : Type := mkEdge {
  src_node : Node;
  dest_node : Node;
  relation : option string;
  edge_properties : dict value
}.

(* ================================================================= *)
(** ** graph.py: the Graph object *)

Definition CREATE_STR : string := "CREATE ".

Record Graph : Type := mkGraph {
  name : string;
  flush_rate : Z;
  recreate_flag : bool;
  nodes : dict Node;
  edges : list Edge;
  _labels : list value;
  _properties : list value;
  _relationshipTypes : list value;
  _nodes_to_commit : dict Node;
  _edges_to_commit : list Edge
}.

(** [Graph._initialize]: every field but [name] and [flush_rate] is reset. *)
Definition _initialize (g : Graph) : Graph :=
  {| name := name g;
     flush_rate := flush_rate g;
     recreate_flag := false;
     nodes := [];
     edges := [];
     _labels := [];
     _properties := [];
     _relationshipTypes := [];
     _nodes_to_commit := [];
     _edges_to_commit := [] |}.

(** [Graph.__init__] *)
Definition Graph_init (name : string) (flush_rate : Z) : Graph :=
  _initialize
    {| name := name; flush_rate := flush_rate; recreate_flag := false;
       nodes := []; edges := []; _labels := []; _properties := [];
       _relationshipTypes := []; _nodes_to_commit := [];
       _edges_to_commit := [] |}.

Definition set_nodes_to_commit (d : dict Node) (g : Graph) : Graph :=
  {| name := name g; flush_rate := flush_rate g;
     recreate_flag := recreate_flag g; nodes := nodes g; edges := edges g;
     _labels := _labels g; _properties := _properties g;
     _relationshipTypes := _relationshipTypes g;
     _nodes_to_commit := d; _edges_to_commit := _edges_to_commit g |}.

Definition set_edges_to_commit (l : list Edge) (g : Graph) : Graph :=
  {| name := name g; flush_rate := flush_rate g;
     recreate_flag := recreate_flag g; nodes := nodes g; edges := edges g;
     _labels := _labels g; _properties := _properties g;
     _relationshipTypes := _relationshipTypes g;
     _nodes_to_commit := _nodes_to_commit g; _edges_to_commit := l |}.

Definition set_edges (l : list Edge) (g : Graph) : Graph :=
  {| name := name g; flush_rate := flush_rate g;
     recreate_flag := recreate_flag g; nodes := nodes g; edges := l;
     _labels := _labels g; _properties := _properties g;
     _relationshipTypes := _relationshipTypes g;
     _nodes_to_commit := _nodes_to_commit g;
     _edges_to_commit := _edges_to_commit g |}.

Definition set_recreate_flag (b : bool) (g : Graph) : Graph :=
  {| name := name g; flush_rate := flush_rate g;
     recreate_flag := b; nodes := nodes g; edges := edges g;
     _labels := _labels g; _properties := _properties g;
     _relationshipTypes := _relationshipTypes g;
     _nodes_to_commit := _nodes_to_commit g;
     _edges_to_commit := _edges_to_commit g |}.

(** [i % r] *)
Definition py_mod (i r : Z) : result Z :=
  if r =? 0 then raise ZeroDivisionError else ok (i mod r).

(** [self.nodes.get(alias) is not None] *)
Definition node_exists (g : Graph) (a : option string) : bool :=
  match a with
  | Some k =>
      match dict_get k (nodes g) with
      | Some _ => true
      | None => false
      end
  | None => false
  end.

(* ================================================================= *)
(** ** rg_utils.py: quoting *)

(** A text holding one double quote. *)
Definition dq : string := String PyStr.quote "".

(** The part of [quote_string] that runs on a text. *)
Definition quote_text (v : string) : string :=
  if PyStr.len v =? 0 then dq ++ dq
  else
    let v := if negb (PyStr.is_char PyStr.quote (PyStr.first v)) then dq ++ v else v in
    let v := if negb (PyStr.is_char PyStr.quote (PyStr.last v)) then v ++ dq else v in
    v.

(** Concrete collaborators on which the statements below are exercised: a
    decoder that accepts every byte string as it is, a connection that counts
    the commands it has received and refuses the one numbered [k], and an edge
    renderer for unlabelled, property-free edges. *)
Module Fixture.

Definition decode_any (b : string) : option string := Some b.

Definition repr_plain (b : string) : string := "b'" ++ b ++ "'".

Definition edge_text (e : Edge) : result string :=
  ok ("(" ++ text_or_empty (alias (src_node e)) ++ ")-[]->("
          ++ text_or_empty (alias (dest_node e)) ++ ")").

Definition accept (c : nat) (cmd : list string) : nat * result unit :=
  (S c, ok tt).

Definition refuse_at (k : nat) (c : nat) (cmd : list string) : nat * result unit :=
  (S c, if Nat.eqb c k then raise (ForeignError "ResponseError") else ok tt).

Definition wrap (g : Graph) (r : unit) : result unit := ok r.

Definition person (a : string) : Node :=
  {| id := None; alias := Some a; label := Some "Person"; properties := [] |}.

Definition bob : Node :=
  {| id := None; alias := Some "a"; label := Some "Person";
     properties := [("name", VStr "Bob")] |}.

Definition five : dict Node :=
  [("n1", person "n1"); ("n2", person "n2"); ("n3", person "n3");
   ("n4", person "n4"); ("n5", person "n5")].

Definition link (a b : string) : Edge :=
  {| src_node := person a; dest_node := person b; relation := None;
     edge_properties := [] |}.

Definition graph_of (r : Z) (pending : dict Node) (pending_edges : list Edge) : Graph :=
  {| name := "g"; flush_rate := r; recreate_flag := true;
     nodes := pending; edges := pending_edges;
     _labels := [VStr "Person"]; _properties := []; _relationshipTypes := [];
     _nodes_to_commit := pending; _edges_to_commit := pending_edges |}.

End Fixture.

(** The names used by the tests of the package, and a replacement reader
    that takes every text as it is. *)
Module Sample.

Definition take_literally (r : string) : result string := ok r.

Definition invalid_hla_alleles : list string :=
  ["DRB1*04:20"; "B*39:45"; "C*12:21"; "DRB1*09:09"; "B*37:01"; "A**0201"].

Definition valid_hla_alleles : list string :=
  ["DRB1_04_20"; "B_39_45"; "C_12_21"; "DRB1_09_09"; "B_37_01"; "A__0201"].

Definition hla_loci : list string :=
  ["HLA_A"; "HLA_B"; "HLA_C"; "HLA_DRB1"; "HLA_DRB3"; "HLA_DRB4"; "HLA_DRB5"].

Definition locus_node (locus : string) : Node :=
  {| id := None; alias := None; label := Some "hla_locus";
     properties := [("locus", VStr locus)] |}.

Definition no_draw : nat -> nat -> nat := fun _ _ => 0%nat.

Definition empty_graph : Graph := Graph_init "test_graph" 100.

End Sample.

(* ================================================================= *)
(** ** The collaborators and the methods that use them *)

Section Runtime.

#[local] Set Default Proof Using "Type".

(** [bytes.decode()]: the decoded text, or [None] for [UnicodeDecodeError]. *)
Variable bytes_decode : string -> option string.
(** [str(b)] of a [bytes] value. *)
Variable bytes_repr : string -> string.
(** [Edge.__str__], defined in edge.py. *)
Variable Edge_str : Edge -> result string.
(** The connection object: its state, the replies it gives, and
    [execute_command], which returns a reply or raises. *)
Variables (Conn Reply : Type).
Variable execute_command : Conn -> list string -> Conn * result Reply.
(** The decoder of query_result.py, [QueryResult(graph, response)]. *)
Variable QueryResult : Type.
Variable QueryResult_new : Graph -> Reply -> result QueryResult.
(** How [re.sub] reads its replacement text before it substitutes: backslash
    escapes are expanded, a bad escape raises. *)
Variable expand_template : string -> result string.
(** The attribute [result_set] of a decoded reply: its rows of cells. *)
Variable result_set : QueryResult -> list (list value).

(** Drops the collaborators from a goal that does not speak of them. *)
Ltac without_collaborators :=
  try clear Edge_str; try clear execute_command; try clear QueryResult_new;
  try clear bytes_decode; try clear bytes_repr;
  try clear result_set; try clear expand_template;
  try clear QueryResult; try clear Reply; try clear Conn.

(** [quote_string] *)
Definition quote_string (v : value) : result value :=
  match v with
  | VBytes b =>
      match bytes_decode b with
      | Some s => ok (VStr (quote_text s))
      | None => raise UnicodeDecodeError
      end
  | VStr s => ok (VStr (quote_text s))
  | _ => ok v
  end.

(** [str(v)] *)
Definition py_str (v : value) : string :=
  match v with
  | VNone => "None"
  | VBool true => "True"
  | VBool false => "False"
  | VInt z => str_of_int z
  | VStr s => s
  | VBytes b => bytes_repr b
  end.

(** [key+':'+str(rg_utils.quote_string(val))] *)
Definition render_prop (kv : string * value) : result string :=
  rbind (quote_string (snd kv)) (fun q => ok (fst kv ++ ":" ++ py_str q)).

(** [','.join(... for key, val in properties.items() if pd.notnull(val))] *)
Definition render_props (p : dict value) : result string :=
  rbind (rmap render_prop (filter (fun kv => notnull (snd kv)) p))
        (fun l => ok (PyStr.join "," l)).

(** [Node.toString] *)
Definition Node_toString (self : Node) : result string :=
  let res := "" in
  match properties self with
  | [] => ok res
  | _ :: _ =>
      rbind (render_props (properties self))
            (fun props => ok (res ++ "{" ++ props ++ "}"))
  end.

(** [Node.__str__] *)
Definition Node_str (self : Node) : result string :=
  let res := "(" in
  let res := if truthy (alias self) then res ++ text_or_empty (alias self) else res in
  let res := if truthy (label self) then res ++ ":" ++ text_or_empty (label self) else res in
  rbind
    match properties self with
    | [] => ok res
    | _ :: _ =>
        rbind (render_props (properties self))
              (fun props => ok (res ++ "{" ++ props ++ "}"))
    end
    (fun res => ok (res ++ ")")).

(** [Graph.build_params_header] *)
Fixpoint build_params_loop (items : dict value) (params_header : string) : result string :=
  match items with
  | [] => ok params_header
  | (key, value) :: rest =>
      rbind
        match value with
        | VStr _ => quote_string value
        | VNone => ok (VStr "null")
        | _ => ok value
        end
        (fun value =>
           build_params_loop rest (params_header ++ key ++ "=" ++ py_str value ++ " "))
  end.

Definition build_params_header (params : dict value) : result string :=
  build_params_loop params "CYPHER ".

(** *** The state the methods run on *)

Record Env : Type := mkEnv {
  self : Graph;                 (* the Graph object *)
  redis_con : Conn;             (* the connection it holds *)
  wire : list (list string);    (* every command handed to the connection *)
  logged : list string          (* what was written to the logger *)
}.

Definition M (A : Type) : Type := Env -> Env * result A.

Definition ret {A} (a : A) : M A := fun s => (s, ok a).

Definition bind {A B} (m : M A) (k : A -> M B) : M B :=
  fun s =>
    match m s with
    | (s', inl e) => (s', inl e)
    | (s', inr a) => k a s'
    end.

Notation "x <- c ;; k" := (bind c (fun x => k))
  (at level 61, c at next level, right associativity).

Definition lift {A} (r : result A) : M A := fun s => (s, r).

Definition get_self : M Graph := fun s => (s, ok (self s)).

Definition modify_self (f : Graph -> Graph) : M unit :=
  fun s =>
    ({| self := f (self s); redis_con := redis_con s; wire := wire s;
        logged := logged s |}, ok tt).

(** [self.redis_con.execute_command] on the words of [cmd] *)
Definition execute (cmd : list string) : M Reply :=
  fun s =>
    let '(c, r) := execute_command (redis_con s) cmd in
    ({| self := self s; redis_con := c; wire := (wire s ++ [cmd])%list;
        logged := logged s |}, r).

(** [Graph.log] *)
Definition log (msg : string) : M unit :=
  fun s =>
    ({| self := self s; redis_con := redis_con s; wire := wire s;
        logged := (logged s ++ [("[" ++ name (self s) ++ "] " ++ msg)%string])%list |},
     ok tt).

(** [Graph.query].  The test [query[-1] is ','] compares by identity; the
    interpreter keeps one object per one-character text, so it holds exactly
    when the last character is a comma. *)
Definition query (query : string) (params : option (dict value)) : M QueryResult :=
  query <- match params with
           | Some p => lift (rbind (build_params_header p) (fun h => ok (h ++ query)))
           | None => ret query
           end ;;
  c <- lift match PyStr.last query with
            | Some c => ok c
            | None => raise IndexError
            end ;;
  let query := if Ascii.eqb c PyStr.comma then PyStr.drop_last query else query in
  g <- get_self ;;
  response <- execute ["GRAPH.QUERY"; name g; query; "--compact"] ;;
  lift (QueryResult_new g response).

(** The loop of [Graph._commit_list]; [i] is the index of the head of [l].
    The progress bar only wraps the iteration and is left out. *)
Fixpoint commit_loop {A} (str : A -> result string) (l : list A) (i : Z)
  (q : string) : M string :=
  match l with
  | [] => ret q
  | item :: l' =>
      s <- lift (str item) ;;
      let q := q ++ s ++ "," in
      g <- get_self ;;
      m <- lift (py_mod i (flush_rate g)) ;;
      if m =? flush_rate g - 1 then
        _ <- query q None ;;
        commit_loop str l' (i + 1) CREATE_STR
      else commit_loop str l' (i + 1) q
  end.

(** [Graph._commit_list] *)
Definition _commit_list {A} (str : A -> result string) (l : list A) : M unit :=
  if Nat.eqb (List.length l) 0 then ret tt
  else
    q <- commit_loop str l 0 CREATE_STR ;;
    if PyStr.len q >? PyStr.len CREATE_STR then
      _ <- query q None ;; ret tt
    else ret tt.

(** [Graph._commit_nodes] *)
Definition _commit_nodes : M unit :=
  g <- get_self ;;
  _ <- _commit_list Node_str (dict_values (_nodes_to_commit g)) ;;
  modify_self (set_nodes_to_commit []).

(** [Graph._commit_edges] *)
Definition _commit_edges : M unit :=
  g <- get_self ;;
  _ <- _commit_list Edge_str (_edges_to_commit g) ;;
  modify_self (set_edges_to_commit []).

(** [Graph.commit] *)
Definition commit : M unit :=
  _ <- _commit_nodes ;;
  _commit_edges.

(** [Graph.recreate_in_database] *)
Definition recreate_in_database : M unit :=
  g <- get_self ;;
  if negb (Bool.eqb (recreate_flag g) true) then
    log "Please set the `recreate_flag` before calling `recreate_in_database`"
  else
    _ <- _commit_list Node_str (dict_values (nodes g)) ;;
    g <- get_self ;;
    _ <- _commit_list Edge_str (edges g) ;;
    _ <- modify_self (set_nodes_to_commit []) ;;
    _ <- modify_self (set_edges_to_commit []) ;;
    modify_self (set_recreate_flag false).

(** [Graph.add_edge] *)
Definition add_edge (edge : Edge) (validate_nodes : bool) : M unit :=
  _ <- (if validate_nodes then
          g <- get_self ;;
          let source_exists := node_exists g (alias (src_node edge)) in
          let dest_exists := node_exists g (alias (dest_node edge)) in
          if (source_exists && dest_exists)%bool then ret tt
          else lift (raise AssertionError)
        else ret tt) ;;
  _ <- modify_self (fun g => set_edges (edges g ++ [edge])%list g) ;;
  modify_self (fun g => set_edges_to_commit (_edges_to_commit g ++ [edge])%list g).

(** [Graph.delete] *)
Definition delete : M Reply :=
  _ <- modify_self _initialize ;;
  g <- get_self ;;
  execute ["GRAPH.DELETE"; name g].

(** *** The commands a flush is expected to send *)

(** [l] cut into runs of [r] items, the last one shorter when [r] does not
    divide the length; [fuel] bounds the number of runs. *)
Fixpoint chunks_fuel {A} (fuel r : nat) (l : list A) : list (list A) :=
  match fuel with
  | O => []
  | S fuel' =>
      match l with
      | [] => []
      | _ :: _ => firstn r l :: chunks_fuel fuel' r (skipn r l)
      end
  end.

Definition chunks {A} (r : nat) (l : list A) : list (list A) :=
  chunks_fuel (List.length l) r l.

(** The bulk create command for one run of rendered fragments. *)
Definition create_command (graph_name : string) (frags : list string) : list string :=
  ["GRAPH.QUERY"; graph_name; CREATE_STR ++ PyStr.join "," frags; "--compact"].

(** Handing commands to the connection one after the other until one is
    refused or its reply cannot be decoded: the connection afterwards, the
    commands handed over, and the exception if there was one. *)
Fixpoint send_all (g : Graph) (c : Conn) (cmds : list (list string))
  : Conn * list (list string) * option exn :=
  match cmds with
  | [] => (c, [], None)
  | cmd :: rest =>
      match execute_command c cmd with
      | (c', inl e) => (c', [cmd], Some e)
      | (c', inr reply) =>
          match QueryResult_new g reply with
          | inl e => (c', [cmd], Some e)
          | inr _ =>
              let '(c'', sent, oe) := send_all g c' rest in
              (c'', cmd :: sent, oe)
          end
      end
  end.

(** [ceil(n / r)] *)
Definition ceil_div (n r : nat) : nat := ((n + r - 1) / r)%nat.

(** What [_commit_list] does after its loop. *)
Definition flush_rest (q : string) : M unit :=
  if PyStr.len q >? PyStr.len CREATE_STR then
    _ <- query q None ;; ret tt
  else ret tt.

(** The buffer [q] after the fragments [cur] were added to an empty one:
    each fragment is followed by a comma. *)
Fixpoint trail (cur : list string) : string :=
  match cur with
  | [] => ""
  | f :: cur' => f ++ "," ++ trail cur'
  end.

Definition buffer (cur : list string) : string := CREATE_STR ++ trail cur.

(** One command handed to the connection and its reply decoded. *)
Definition send_one (s : Env) (cmd : list string) : Env * result QueryResult :=
  match execute_command (redis_con s) cmd with
  | (c, inl e) =>
      ({| self := self s; redis_con := c; wire := (wire s ++ [cmd])%list;
          logged := logged s |}, inl e)
  | (c, inr reply) =>
      ({| self := self s; redis_con := c; wire := (wire s ++ [cmd])%list;
          logged := logged s |}, QueryResult_new (self s) reply)
  end.

(** The state and the outcome after [cmds] went through [send_all]; on
    success the object is updated by [done]. *)
Definition flush_outcome (done : Graph -> Graph) (s : Env) (cmds : list (list string))
  : Env * result unit :=
  let '(c, sent, oe) := send_all (self s) (redis_con s) cmds in
  match oe with
  | Some e =>
      ({| self := self s; redis_con := c; wire := (wire s ++ sent)%list;
          logged := logged s |}, inl e)
  | None =>
      ({| self := done (self s); redis_con := c; wire := (wire s ++ sent)%list;
          logged := logged s |}, ok tt)
  end.

(** A computation that leaves the Graph object as it found it, whether it
    returns or raises. *)
Definition keeps_self {A} (m : M A) : Prop :=
  forall s s' r, m s = (s', r) -> self s' = self s.

(** An alias that is a key of the node table. *)
Definition registered (g : Graph) (a : option string) : Prop :=
  exists k, a = Some k /\ In k (dict_keys (nodes g)).

(* ================================================================= *)
(** ** The rest of rg_utils.py *)

(** [[0-9a-zA-Z]] *)
Definition is_alnum (c : ascii) : bool :=
  (is_digit c || is_lower c || is_upper c)%bool.

(** Every character that [[^0-9a-zA-Z]] matches gives way to [lit]. *)
Fixpoint substitute (lit : string) (s : string) : string :=
  match s with
  | EmptyString => EmptyString
  | String c s' =>
      if negb (is_alnum c) then lit ++ substitute lit s'
      else String c (substitute lit s')
  end.

(** [replace_symbols] *)
Definition replace_symbols (s : string) (replacement : string) : result string :=
  rbind (expand_template replacement) (fun lit => ok (substitute lit s)).

(** [replace_all_symbols]: the call inside passes no replacement, so each
    text is treated with the default one. *)
Definition replace_all_symbols (strings : list string) (replacement : string)
  : result (list string) :=
  rmap (fun s => replace_symbols s "_") strings.

Definition ascii_lowercase : string := "abcdefghijklmnopqrstuvwxyz".

(** [random.choice(seq)] when the generator draws [r]: the element at
    position [r] modulo the length, [IndexError] on an empty sequence. *)
Definition choice (seq : string) (r : nat) : result ascii :=
  match String.get (r mod String.length seq) seq with
  | Some c => ok c
  | None => raise IndexError
  end.

(** [random_string]; [rand x] is what the generator draws for the
    character at position [x]. *)
Definition random_string (rand : nat -> nat) (length : Z) : result string :=
  rbind (rmap (fun x => choice ascii_lowercase (rand x)) (seq 0 (Z.to_nat length)))
        (fun cs => ok (string_of_list_ascii cs)).

(* ================================================================= *)
(** ** The rest of node.py *)

(** Warnings and outcome of one step, then of the next. *)
Definition wbind {A B} (m : list string * result A)
  (k : A -> list string * result B) : list string * result B :=
  match m with
  | (w, inl e) => (w, inl e)
  | (w, inr a) => let '(w', r) := k a in ((w ++ w')%list, r)
  end.

(** [for k, v in self.properties.items(): validate_cypher_identifier(k)] *)
Fixpoint validate_keys (keys : list string) : list string * result unit :=
  match keys with
  | [] => ([], ok tt)
  | k :: keys' =>
      wbind (validate_cypher_identifier (Some k) true true)
            (fun _ => validate_keys keys')
  end.

(** [Node.validate] *)
Definition Node_validate (self : Node) : list string * result unit :=
  wbind (validate_cypher_identifier (alias self) true true) (fun _ =>
  wbind (validate_cypher_identifier (label self) true true) (fun _ =>
  validate_keys (dict_keys (properties self)))).

(** A name the validator lets through with its defaults: [None] or a text
    the pattern matches. *)
Definition accepted (o : option string) : Prop :=
  match o with
  | None => True
  | Some s => re_match VALID_CYPHER_IDENIFIER s = true
  end.

(* ================================================================= *)
(** ** The rest of graph.py *)

(** [d[k] = v]: a key already present keeps its place. *)
Fixpoint dict_set {V} (k : string) (v : V) (d : dict V) : dict V :=
  match d with
  | [] => [(k, v)]
  | (k', w) :: d' =>
      if String.eqb k k' then (k, v) :: d' else (k', w) :: dict_set k v d'
  end.

Definition set_nodes (d : dict Node) (g : Graph) : Graph :=
  {| name := name g; flush_rate := flush_rate g;
     recreate_flag := recreate_flag g; nodes := d; edges := edges g;
     _labels := _labels g; _properties := _properties g;
     _relationshipTypes := _relationshipTypes g;
     _nodes_to_commit := _nodes_to_commit g;
     _edges_to_commit := _edges_to_commit g |}.

Definition set_labels (l : list value) (g : Graph) : Graph :=
  {| name := name g; flush_rate := flush_rate g;
     recreate_flag := recreate_flag g; nodes := nodes g; edges := edges g;
     _labels := l; _properties := _properties g;
     _relationshipTypes := _relationshipTypes g;
     _nodes_to_commit := _nodes_to_commit g;
     _edges_to_commit := _edges_to_commit g |}.

Definition set_relationshipTypes (l : list value) (g : Graph) : Graph :=
  {| name := name g; flush_rate := flush_rate g;
     recreate_flag := recreate_flag g; nodes := nodes g; edges := edges g;
     _labels := _labels g; _properties := _properties g;
     _relationshipTypes := l;
     _nodes_to_commit := _nodes_to_commit g;
     _edges_to_commit := _edges_to_commit g |}.

Definition set_properties_cache (l : list value) (g : Graph) : Graph :=
  {| name := name g; flush_rate := flush_rate g;
     recreate_flag := recreate_flag g; nodes := nodes g; edges := edges g;
     _labels := _labels g; _properties := l;
     _relationshipTypes := _relationshipTypes g;
     _nodes_to_commit := _nodes_to_commit g;
     _edges_to_commit := _edges_to_commit g |}.

(** The warnings of a module function go to the logger. *)
Definition lift_logged {A} (w : list string * result A) : M A :=
  fun s =>
    ({| self := self s; redis_con := redis_con s; wire := wire s;
        logged := (logged s ++ fst w)%list |}, snd w).

(** The node after [node.alias = node.properties[alias_property]].  [None]
    marks the calls that are not modelled: the property is missing (Python
    raises [KeyError]) or its value is neither a text nor [None] (the alias
    would be a key that is not a text). *)
Definition alias_from_property (alias_property : option string) (node : Node)
  : option Node :=
  match alias_property with
  | None => Some node
  | Some p =>
      match dict_get p (properties node) with
      | Some (VStr a) => Some (set_alias (Some a) node)
      | Some VNone => Some (set_alias None node)
      | _ => None
      end
  end.

(** [Graph.add_node] from its second statement on; [rand] is what the
    generator draws if [random_string] is called. *)
Definition add_node_body (rand : nat -> nat) (node : Node) (validate : bool)
  : M string :=
  a <- match alias node with
       | None => lift (random_string rand 10)
       | Some a => ret a
       end ;;
  let node := set_alias (Some a) node in
  _ <- (if validate then lift_logged (Node_validate node) else ret tt) ;;
  _ <- modify_self (fun g => set_nodes (dict_set a node (nodes g)) g) ;;
  _ <- modify_self
         (fun g => set_nodes_to_commit (dict_set a node (_nodes_to_commit g)) g) ;;
  ret a.

(** [Graph.add_node]; [None] for the calls [alias_from_property] leaves out. *)
Definition add_node (rand : nat -> nat) (node : Node)
  (alias_property : option string) (validate : bool) : option (M string) :=
  match alias_from_property alias_property node with
  | Some node => Some (add_node_body rand node validate)
  | None => None
  end.

(** [Graph.add_nodes]; [rands i] is what the generator draws during the call
    for the node at position [i].  The progress bar is left out.  [None] when
    the call for one of the nodes is among those [add_node] leaves out. *)
Fixpoint add_nodes_from (rands : nat -> nat -> nat) (i : nat)
  (node_list : list Node) (alias_property : option string) (validate : bool)
  : option (M (list string)) :=
  match node_list with
  | [] => Some (ret [])
  | node :: rest =>
      match add_node (rands i) node alias_property validate,
            add_nodes_from rands (S i) rest alias_property validate with
      | Some first, Some others =>
          Some (a <- first ;; aliases <- others ;; ret (a :: aliases))
      | _, _ => None
      end
  end.

Definition add_nodes (rands : nat -> nat -> nat) (node_list : list Node)
  (alias_property : option string) (validate : bool) : option (M (list string)) :=
  add_nodes_from rands 0 node_list alias_property validate.

(** [Graph.add_edges], without its progress bar. *)
Fixpoint add_edges (edge_list : list Edge) (validate_nodes : bool) : M unit :=
  match edge_list with
  | [] => ret tt
  | edge :: rest =>
      _ <- add_edge edge validate_nodes ;;
      add_edges rest validate_nodes
  end.

(** [Graph.merge] of a pattern whose [str] is [str pattern]. *)
Definition merge {A} (str : A -> result string) (pattern : A) : M QueryResult :=
  text <- lift (str pattern) ;;
  query ("MERGE " ++ text) None.

(** [Graph.call_procedure] with text arguments; [y] is the keyword [y], a
    list of names or absent. *)
Definition call_procedure (procedure : string) (args : list string)
  (y : option (list string)) : M QueryResult :=
  args <- lift (rmap (fun arg => rbind (quote_string (VStr arg)) (fun v => ok (py_str v)))
                     args) ;;
  let q := "CALL " ++ procedure ++ "(" ++ PyStr.join "," args ++ ")" in
  let q := match y with
           | Some ((_ :: _) as names) => q ++ " YIELD " ++ PyStr.join "," names
           | _ => q
           end in
  query q None.

(** [Graph.labels], [Graph.relationship_types], [Graph.property_keys] *)
Definition labels : M (list (list value)) :=
  r <- call_procedure "db.labels" [] None ;; ret (result_set r).

Definition relationship_types : M (list (list value)) :=
  r <- call_procedure "db.relationshipTypes" [] None ;; ret (result_set r).

Definition property_keys : M (list (list value)) :=
  r <- call_procedure "db.propertyKeys" [] None ;; ret (result_set r).

(** [l[idx]] on a list: a negative index counts from the end. *)
Definition py_index {A} (l : list A) (idx : Z) : result A :=
  let n := Z.of_nat (List.length l) in
  let pos := if idx <? 0 then idx + n else idx in
  if ((0 <=? pos) && (pos <? n))%bool then
    match nth_error l (Z.to_nat pos) with
    | Some x => ok x
    | None => raise IndexError
    end
  else raise IndexError.

(** [l[i] = v] for an index in range. *)
Fixpoint list_set {A} (i : nat) (v : A) (l : list A) : list A :=
  match l, i with
  | [], _ => []
  | _ :: l', O => v :: l'
  | x :: l', S i' => x :: list_set i' v l'
  end.

(** The three cached lookups are the same code on three fields: [get] and
    [set] read and assign the field, [fetch] asks the store. *)
Fixpoint unpack (get : Graph -> list value) (set : list value -> Graph -> Graph)
  (rows : list (list value)) (i : nat) : M unit :=
  match rows with
  | [] => ret tt
  | row :: rows' =>
      cell <- lift (py_index row 0) ;;
      _ <- modify_self (fun g => set (list_set i cell (get g)) g) ;;
      unpack get set rows' (S i)
  end.

Definition cached_lookup (get : Graph -> list value)
  (set : list value -> Graph -> Graph) (fetch : M (list (list value)))
  (idx : Z) : M value :=
  g <- get_self ;;
  match py_index (get g) idx with
  | inr found => ret found
  | inl IndexError =>
      rows <- fetch ;;
      _ <- modify_self (set (repeat VNone (List.length rows))) ;;
      _ <- unpack get set rows 0 ;;
      g <- get_self ;;
      lift (py_index (get g) idx)
  | inl e => lift (raise e)
  end.

(** [Graph.get_label], [Graph.get_relation], [Graph.get_property] *)
Definition get_label (idx : Z) : M value :=
  cached_lookup _labels set_labels labels idx.

Definition get_relation (idx : Z) : M value :=
  cached_lookup _relationshipTypes set_relationshipTypes relationship_types idx.

Definition get_property (idx : Z) : M value :=
  cached_lookup _properties set_properties_cache property_keys idx.

(** *** What the remote calls are expected to hand over *)

(** The text of a query once [query] has looked at its last character. *)
Definition strip_comma (text : string) : string :=
  if PyStr.is_char PyStr.comma (PyStr.last text) then PyStr.drop_last text
  else text.

(** The command [query] hands to the connection for a text. *)
Definition query_command (g : Graph) (text : string) : list string :=
  ["GRAPH.QUERY"; name g; strip_comma text; "--compact"].

(** One parameter of the header: the name, [=], the value and a space. *)
Definition param_entry (kv : string * value) : string :=
  fst kv ++ "="
    ++ match snd kv with
       | VStr s => quote_text s
       | VNone => "null"
       | v => py_str v
       end
    ++ " ".

Fixpoint params_text (items : dict value) : string :=
  match items with
  | [] => ""
  | kv :: rest => param_entry kv ++ params_text rest
  end.

(** The state after the edges [added] were appended to the edge list and to
    the pending edges. *)
Definition with_edges (added : list Edge) (s : Env) : Env :=
  {| self := set_edges_to_commit (_edges_to_commit (self s) ++ added)%list
               (set_edges (edges (self s) ++ added)%list (self s));
     redis_con := redis_con s; wire := wire s; logged := logged s |}.

(** Both ends of an edge are keys of the node table. *)
Definition endpoints_registered (g : Graph) (e : Edge) : Prop :=
  registered g (alias (src_node e)) /\ registered g (alias (dest_node e)).

(** The alias [add_node] settles on: the node's own, or a random one. *)
Definition chosen_alias (rand : nat -> nat) (node : Node) : result string :=
  match alias node with
  | None => random_string rand 10
  | Some a => ok a
  end.

(** The state after [stored] was put under [a] in the node table and in the
    pending nodes. *)
Definition with_node (a : string) (stored : Node) (s : Env) : Env :=
  {| self := set_nodes_to_commit (dict_set a stored (_nodes_to_commit (self s)))
               (set_nodes (dict_set a stored (nodes (self s))) (self s));
     redis_con := redis_con s; wire := wire s; logged := logged s |}.

(** The three cached lists, to speak of [get_label], [get_relation] and
    [get_property] at once. *)
Inductive cache : Type := Labels | RelationshipTypes | PropertyKeys.

Definition cache_get (c : cache) : Graph -> list value :=
  match c with
  | Labels => _labels
  | RelationshipTypes => _relationshipTypes
  | PropertyKeys => _properties
  end.

Definition cache_set (c : cache) : list value -> Graph -> Graph :=
  match c with
  | Labels => set_labels
  | RelationshipTypes => set_relationshipTypes
  | PropertyKeys => set_properties_cache
  end.

Definition cache_procedure (c : cache) : string :=
  match c with
  | Labels => "db.labels"
  | RelationshipTypes => "db.relationshipTypes"
  | PropertyKeys => "db.propertyKeys"
  end.

Definition cache_lookup (c : cache) : Z -> M value :=
  match c with
  | Labels => get_label
  | RelationshipTypes => get_relation
  | PropertyKeys => get_property
  end.

(** The first cell of every row. *)
Definition first_cells (rows : list (list value)) : list value :=
  map (hd VNone) rows.

(* ================================================================= *)
(** ** Facts about text *)

Lemma app_single_not_empty (v : string) (c : ascii) :
  v ++ String c "" <> "".
Proof. destruct v; discriminate. Qed.

Lemma last_cons_nonempty (a : ascii) (v : string) :
  v <> "" -> PyStr.last (String a v) = PyStr.last v.
Proof. destruct v; [congruence | reflexivity]. Qed.

Lemma last_app_single (v : string) (c : ascii) :
  PyStr.last (v ++ String c "") = Some c.
Proof.
  induction v as [| a v IH]; [reflexivity |].
  change (String a v ++ String c "") with (String a (v ++ String c "")).
  rewrite last_cons_nonempty by apply app_single_not_empty.
  exact IH.
Qed.

Lemma drop_last_cons_nonempty (a : ascii) (v : string) :
  v <> "" -> PyStr.drop_last (String a v) = String a (PyStr.drop_last v).
Proof. destruct v; [congruence | reflexivity]. Qed.

Lemma drop_last_app_single (v : string) (c : ascii) :
  PyStr.drop_last (v ++ String c "") = v.
Proof.
  induction v as [| a v IH]; [reflexivity |].
  change (String a v ++ String c "") with (String a (v ++ String c "")).
  rewrite drop_last_cons_nonempty by apply app_single_not_empty.
  now rewrite IH.
Qed.

Lemma len_zero_iff (v : string) : (PyStr.len v =? 0) = true <-> v = "".
Proof.
  unfold PyStr.len. rewrite Z.eqb_eq. destruct v; simpl; split; intros H;
    try reflexivity; try discriminate; lia.
Qed.

Lemma append_empty_r (v : string) : v ++ "" = v.
Proof. induction v; simpl; congruence. Qed.

Lemma append_assoc (a b c : string) : (a ++ b) ++ c = a ++ (b ++ c).
Proof. induction a; simpl; congruence. Qed.

Lemma quote_text_cases (v : string) :
  quote_text v =
    match v with
    | EmptyString => dq ++ dq
    | String _ _ =>
        (if PyStr.is_char PyStr.quote (PyStr.first v) then "" else dq)
          ++ v
          ++ (if PyStr.is_char PyStr.quote (PyStr.last v) then "" else dq)
    end.
Proof.
  destruct v as [| a v]; [reflexivity |].
  unfold quote_text.
  replace (PyStr.len (String a v) =? 0) with false
    by (symmetry; apply Z.eqb_neq; unfold PyStr.len; simpl; lia).
  destruct (PyStr.is_char PyStr.quote (PyStr.first (String a v))) eqn:F; cbn [negb].
  - destruct (PyStr.is_char PyStr.quote (PyStr.last (String a v))); cbn [negb].
    + simpl. now rewrite append_empty_r.
    + reflexivity.
  - replace (PyStr.last (dq ++ String a v)) with (PyStr.last (String a v))
      by (unfold dq; simpl; reflexivity).
    destruct (PyStr.is_char PyStr.quote (PyStr.last (String a v))); cbn [negb].
    + now rewrite append_empty_r.
    + reflexivity.
Qed.

Lemma quote_text_first (v : string) :
  PyStr.is_char PyStr.quote (PyStr.first (quote_text v)) = true.
Proof.
  rewrite quote_text_cases. destruct v as [| a v]; [reflexivity |].
  destruct (PyStr.is_char PyStr.quote (PyStr.first (String a v))) eqn:F.
  - exact F.
  - reflexivity.
Qed.

Lemma quote_text_last (v : string) :
  PyStr.is_char PyStr.quote (PyStr.last (quote_text v)) = true.
Proof.
  rewrite quote_text_cases. destruct v as [| a v]; [reflexivity |].
  destruct (PyStr.is_char PyStr.quote (PyStr.last (String a v))) eqn:L.
  - rewrite append_empty_r.
    destruct (PyStr.is_char PyStr.quote (PyStr.first (String a v))).
    + exact L.
    + unfold dq. change (String PyStr.quote "" ++ String a v)
        with (String PyStr.quote (String a v)).
      rewrite last_cons_nonempty by discriminate. exact L.
  - rewrite <- append_assoc. unfold dq at 2. rewrite last_app_single.
    reflexivity.
Qed.

Lemma quote_text_not_empty (v : string) : quote_text v <> "".
Proof.
  intros E. pose proof (quote_text_first v) as F. rewrite E in F. discriminate.
Qed.

Lemma quote_text_fixed (v : string) :
  PyStr.is_char PyStr.quote (PyStr.first v) = true ->
  PyStr.is_char PyStr.quote (PyStr.last v) = true ->
  quote_text v = v.
Proof.
  intros F L. rewrite quote_text_cases. destruct v as [| a v]; [discriminate |].
  rewrite F, L. simpl. now rewrite append_empty_r.
Qed.

Lemma quote_text_idempotent (v : string) : quote_text (quote_text v) = quote_text v.
Proof. apply quote_text_fixed; [apply quote_text_first | apply quote_text_last]. Qed.

(* ================================================================= *)
(** ** The value formatter *)

(** C3 (as amended): [quote_string] hands an absent value back unchanged,
    [quote_string(None)] is [None] and no text at all; the literal [null] is
    written by [build_params_header], which replaces a [None] parameter value
    by that text itself. *)
Theorem quote_string_none_passes_through :
  quote_string VNone = ok VNone
  /\ forall k : string,
       build_params_header [(k, VNone)] = ok ("CYPHER " ++ k ++ "=null ").
Proof.
  split; [reflexivity |].
  intros k. reflexivity.
Qed.

(** C7: quoting a text twice gives what quoting it once gives; the empty text
    becomes two double quotes; on a non-empty text a quote is put in front
    exactly when the text does not start with one, and put behind exactly when
    it does not end with one. *)
Theorem quote_string_idempotent : forall v : string,
  rbind (quote_string (VStr v)) quote_string = quote_string (VStr v)
  /\ quote_string (VStr "") = ok (VStr (dq ++ dq))
  /\ quote_string (VStr v) =
       ok (VStr match v with
                | EmptyString => dq ++ dq
                | String _ _ =>
                    (if PyStr.is_char PyStr.quote (PyStr.first v) then "" else dq)
                      ++ v
                      ++ (if PyStr.is_char PyStr.quote (PyStr.last v) then "" else dq)
                end).
Proof.
  intros v. split; [| split].
  - cbn. now rewrite quote_text_idempotent.
  - reflexivity.
  - cbn. now rewrite quote_text_cases.
Qed.

(* ================================================================= *)
(** ** The identifier validator *)

Lemma star_ident_then_eol (s : string) (moved : bool) :
  star_then ident_char (match_here [Eol]) moved s = true <->
  all_chars ident_char s = true
  \/ exists t, s = t ++ String PyStr.LF "" /\ all_chars ident_char t = true.
Proof.
  revert moved. induction s as [| c s IH]; intros moved.
  - simpl. split; [now left | reflexivity].
  - cbn [star_then]. rewrite orb_true_iff, andb_true_iff, IH.
    cbn [match_here]. rewrite andb_true_r. split.
    + intros [[Hc [Hs | [t [Et Ht]]]] | He].
      * left. simpl. now rewrite Hc, Hs.
      * right. exists (String c t). subst s. split; [reflexivity |].
        simpl. now rewrite Hc, Ht.
      * right. exists "". destruct s; [| discriminate].
        simpl in He. apply Ascii.eqb_eq in He. subst c. now split.
    + intros [H | [t [Et Ht]]].
      * simpl in H. apply andb_true_iff in H as [Hc Hs]. left. split; [exact Hc | now left].
      * destruct t as [| d t].
        -- simpl in Et. injection Et as -> ->. right. reflexivity.
        -- simpl in Et. injection Et as -> ->.
           simpl in Ht. apply andb_true_iff in Ht as [Hc Ht].
           left. split; [exact Hc |]. right. now exists t.
Qed.

Lemma re_match_valid_identifier (s : string) :
  re_match VALID_CYPHER_IDENIFIER s = true <->
  spec_valid_identifier s = true
  \/ exists t, s = t ++ String PyStr.LF "" /\ spec_valid_identifier t = true.
Proof.
  unfold re_match, VALID_CYPHER_IDENIFIER.
  destruct s as [| c s].
  - simpl. split; [discriminate |].
    intros [H | [t [Et _]]]; [discriminate |].
    symmetry in Et. now apply app_single_not_empty in Et.
  - cbn [match_here negb andb]. rewrite andb_true_iff, star_ident_then_eol.
    cbn [spec_valid_identifier]. split.
    + intros [Hc [Hs | [t [Et Ht]]]].
      * left. now rewrite Hc, Hs.
      * right. exists (String c t). subst s. split; [reflexivity |].
        simpl. now rewrite Hc, Ht.
    + intros [H | [t [Et Ht]]].
      * apply andb_true_iff in H as [Hc Hs]. split; [exact Hc | now left].
      * destruct t as [| d t]; [discriminate |].
        simpl in Et. injection Et as -> ->.
        simpl in Ht. apply andb_true_iff in Ht as [Hc Ht].
        split; [exact Hc |]. right. now exists t.
Qed.

Lemma validate_text (s : string) (none_is_okay : bool) :
  validate_cypher_identifier (Some s) none_is_okay true =
    if re_match VALID_CYPHER_IDENIFIER s then ([], ok true)
    else ([], raise (ValueError ("Invalid Cypher identifier: '" ++ s ++ "'"))).
Proof.
  unfold validate_cypher_identifier.
  destruct (re_match VALID_CYPHER_IDENIFIER s); reflexivity.
Qed.

(** C8: what the validator does on every text, and where that leaves the
    stated rule.  A text that follows the rule is accepted; a text is accepted
    only if it follows the rule or is such a text followed by one line feed
    (the [$] of the pattern also holds before a final line feed); a text that
    is not accepted raises [ValueError] with the text in its message; [None]
    is accepted by default.  The identifier [a] followed by a line feed breaks
    the rule and is accepted. *)
Theorem validator_accepts_final_line_feed :
  (forall s, spec_valid_identifier s = true ->
             validate_cypher_identifier (Some s) true true = ([], ok true))
  /\ (forall s,
        validate_cypher_identifier (Some s) true true = ([], ok true) <->
        spec_valid_identifier s = true
        \/ exists t, s = t ++ String PyStr.LF "" /\ spec_valid_identifier t = true)
  /\ (forall s,
        validate_cypher_identifier (Some s) true true <> ([], ok true) ->
        validate_cypher_identifier (Some s) true true =
          ([], raise (ValueError ("Invalid Cypher identifier: '" ++ s ++ "'"))))
  /\ validate_cypher_identifier None true true = ([], ok true)
  /\ spec_valid_identifier ("a" ++ String PyStr.LF "") = false
  /\ validate_cypher_identifier (Some ("a" ++ String PyStr.LF "")) true true
     = ([], ok true).
Proof.
  assert (E : forall s,
             validate_cypher_identifier (Some s) true true = ([], ok true) <->
             re_match VALID_CYPHER_IDENIFIER s = true).
  { intros s. rewrite validate_text. unfold ok, raise.
    destruct (re_match VALID_CYPHER_IDENIFIER s); split; congruence. }
  repeat split.
  - intros s H. apply E, re_match_valid_identifier. now left.
  - intros H. apply re_match_valid_identifier, E, H.
  - intros H. apply E, re_match_valid_identifier, H.
  - intros s. rewrite validate_text.
    destruct (re_match VALID_CYPHER_IDENIFIER s); congruence.
Qed.

(* ================================================================= *)
(** ** Node equality *)

Lemma py_eq_refl (v : value) : py_eq v v = true.
Proof.
  destruct v; simpl; auto using Z.eqb_refl, String.eqb_refl.
  now destruct b.
Qed.

(** [==] on scalars is identity of the values, up to reading a [bool] as the
    [int] 0 or 1. *)
Lemma py_eq_spec (v w : value) :
  py_eq v w = true <->
  v = w
  \/ exists b, (v = VBool b /\ w = VInt (int_of_bool b))
              \/ (v = VInt (int_of_bool b) /\ w = VBool b).
Proof.
  split.
  - destruct v, w; simpl; intros H; try discriminate;
      repeat match goal with
        | E : Bool.eqb _ _ = true |- _ => apply Bool.eqb_prop in E; subst
        | E : Z.eqb _ _ = true |- _ => apply Z.eqb_eq in E; subst
        | E : String.eqb _ _ = true |- _ => apply String.eqb_eq in E; subst
        end;
      first [ now left
            | right; eexists; left; split; reflexivity
            | right; eexists; right; split; reflexivity ].
  - intros [-> | [c [[-> ->] | [-> ->]]]]; [apply py_eq_refl | |]; simpl;
      apply Z.eqb_refl.
Qed.

Lemma dict_get_some_key {V} (k : string) (d : dict V) (v : V) :
  dict_get k d = Some v -> In k (dict_keys d).
Proof.
  induction d as [| [k' w] d IH]; simpl; [discriminate |].
  destruct (String.eqb_spec k k') as [-> | _]; [now left | right; auto].
Qed.

Lemma dict_get_none_key {V} (k : string) (d : dict V) :
  dict_get k d = None <-> ~ In k (dict_keys d).
Proof.
  without_collaborators.
  induction d as [| [k' w] d IH]; simpl; [tauto |].
  destruct (String.eqb_spec k k') as [-> | N].
  - split; [discriminate | intros H; exfalso; apply H; now left].
  - rewrite IH. split; intros H; [intros [E | I]; [congruence | tauto] | tauto].
Qed.

Lemma dict_get_entry {V} (k : string) (v : V) (d : dict V) :
  NoDup (dict_keys d) -> In (k, v) d -> dict_get k d = Some v.
Proof.
  without_collaborators.
  induction d as [| [k' w] d IH]; simpl; [tauto |].
  intros ND [E | I].
  - injection E as -> ->. now rewrite String.eqb_refl.
  - inversion ND as [| ? ? Hk ND']; subst.
    destruct (String.eqb_spec k k') as [-> | _]; [| auto].
    exfalso. apply Hk. change (In (fst (k', v)) (map fst d)). now apply in_map.
Qed.

Lemma dict_get_in {V} (k : string) (v : V) (d : dict V) :
  dict_get k d = Some v -> In (k, v) d.
Proof.
  induction d as [| [k' w] d IH]; simpl; [discriminate |].
  destruct (String.eqb_spec k k') as [-> | _].
  - intros [= ->]. now left.
  - right; auto.
Qed.

(** The entry test of [dict_eq], entry by entry. *)
Lemma dict_eq_unfold (a b : dict value) :
  dict_eq a b = true <->
  List.length a = List.length b
  /\ forall k v, In (k, v) a -> exists w, dict_get k b = Some w /\ py_eq v w = true.
Proof.
  unfold dict_eq. rewrite andb_true_iff, Nat.eqb_eq, forallb_forall.
  split; intros [L H]; (split; [exact L |]).
  - intros k v I. specialize (H _ I). simpl in H.
    destruct (dict_get k b) as [w |]; [now exists w | discriminate].
  - intros [k v] I. simpl. destruct (H _ _ I) as [w [-> E]]. exact E.
Qed.

Lemma dict_eq_props_match (a b : dict value) :
  NoDup (dict_keys a) -> NoDup (dict_keys b) ->
  dict_eq a b = true <-> props_match a b.
Proof.
  intros NDa NDb. rewrite dict_eq_unfold. unfold props_match. split.
  - intros [L H] k.
    destruct (dict_get k a) as [v |] eqn:Ga.
    + destruct (H _ _ (dict_get_in _ _ _ Ga)) as [w [-> E]]. exact E.
    + destruct (dict_get k b) as [w |] eqn:Gb; [| exact I].
      apply dict_get_none_key in Ga. apply Ga.
      assert (Inc : incl (dict_keys a) (dict_keys b)).
      { intros x Hx. unfold dict_keys in Hx. apply in_map_iff in Hx as [[x' v] [<- Hx]].
        destruct (H _ _ Hx) as [w' [G _]]. exact (dict_get_some_key _ _ _ G). }
      apply (NoDup_length_incl NDa) in Inc.
      * apply Inc. exact (dict_get_some_key _ _ _ Gb).
      * unfold dict_keys. rewrite !length_map. lia.
  - intros H.
    assert (Iab : incl (dict_keys a) (dict_keys b)).
    { intros k Hk. specialize (H k).
      destruct (dict_get k b) eqn:Gb; [exact (dict_get_some_key _ _ _ Gb) |].
      destruct (dict_get k a) eqn:Ga; [contradiction |].
      apply dict_get_none_key in Ga. contradiction. }
    assert (Iba : incl (dict_keys b) (dict_keys a)).
    { intros k Hk. specialize (H k).
      destruct (dict_get k a) eqn:Ga; [exact (dict_get_some_key _ _ _ Ga) |].
      destruct (dict_get k b) eqn:Gb; [contradiction |].
      apply dict_get_none_key in Gb. contradiction. }
    split.
    + pose proof (NoDup_incl_length NDa Iab) as L1.
      pose proof (NoDup_incl_length NDb Iba) as L2.
      unfold dict_keys in L1, L2. rewrite !length_map in L1, L2. lia.
    + intros k v I. specialize (H k).
      rewrite (dict_get_entry _ _ _ NDa I) in H.
      destruct (dict_get k b) as [w |]; [now exists w | contradiction].
Qed.

Lemma opt_str_ne_false (a b : option string) : opt_str_ne a b = false <-> a = b.
Proof.
  destruct a as [x |], b as [y |]; simpl; try (split; congruence).
  rewrite negb_false_iff, String.eqb_eq. split; congruence.
Qed.

Lemma Node_eq_without_id (a b : Node) :
  same_remote_id (id a) (id b) = false ->
  Node_eq a b = true <->
  label a = label b /\ dict_eq (properties a) (properties b) = true.
Proof.
  intros Hid. unfold Node_eq. rewrite Hid.
  destruct (opt_str_ne (label a) (label b)) eqn:Hl.
  - split; [discriminate |]. intros [E _]. apply opt_str_ne_false in E. congruence.
  - apply opt_str_ne_false in Hl.
    destruct (Nat.eqb (List.length (properties a)) (List.length (properties b))) eqn:Hn;
      cbn [negb].
    + destruct (dict_eq (properties a) (properties b)); cbn [negb]; split;
        try tauto; try discriminate.
    + split; [discriminate |]. intros [_ E].
      unfold dict_eq in E. rewrite Hn in E. discriminate.
Qed.

(** C4: nodes that carry the same remote id are equal whatever their labels
    and properties; nodes without a remote id are equal exactly when their
    labels are the same and their property mappings match, that is, bind the
    same names, each to equal values on both sides; replacing the aliases
    never changes the answer.  Values are equal in the sense of [==]: they
    are the same value, or one is a [bool] and the other the [int] 0 or 1 it
    stands for. *)
Theorem Node_eq_by_id_or_contents (a b : Node)
  (Ha : NoDup (dict_keys (properties a)))
  (Hb : NoDup (dict_keys (properties b))) :
  (forall i, id a = Some i -> id b = Some i -> Node_eq a b = true)
  /\ (id a = None -> id b = None ->
      (Node_eq a b = true <->
       label a = label b /\ props_match (properties a) (properties b)))
  /\ (forall x y, Node_eq (set_alias x a) (set_alias y b) = Node_eq a b)
  /\ (forall v w,
        py_eq v w = true <->
        v = w
        \/ exists c, (v = VBool c /\ w = VInt (int_of_bool c))
                    \/ (v = VInt (int_of_bool c) /\ w = VBool c)).
Proof.
  split; [| split; [| split]].
  - intros i Ia Ib. unfold Node_eq. rewrite Ia, Ib. simpl. now rewrite Z.eqb_refl.
  - intros Ia Ib. rewrite Node_eq_without_id by (rewrite Ia, Ib; reflexivity).
    now rewrite dict_eq_props_match.
  - reflexivity.
  - exact py_eq_spec.
Qed.

(* ================================================================= *)
(** ** Node rendering *)

Lemma filter_notnull_insert_none (pre post : dict value) (k : string) :
  filter (fun kv => notnull (snd kv)) (pre ++ (k, VNone) :: post)%list
  = filter (fun kv => notnull (snd kv)) (pre ++ post)%list.
Proof. now rewrite !filter_app. Qed.

Lemma filter_notnull_all_none (p : dict value) :
  (forall kv, In kv p -> snd kv = VNone) ->
  filter (fun kv => notnull (snd kv)) p = [].
Proof.
  induction p as [| kv p IH]; intros H; [reflexivity |].
  simpl. rewrite (H kv) by now left. simpl. apply IH. intros x Hx. apply H. now right.
Qed.

Lemma render_props_filter (p : dict value) :
  render_props p = render_props (filter (fun kv => notnull (snd kv)) p).
Proof.
  unfold render_props. f_equal. f_equal. symmetry.
  induction p as [| kv p IH]; [reflexivity |].
  simpl. destruct (notnull (snd kv)) eqn:E; simpl; [rewrite E |]; congruence.
Qed.

(** The text in front of the property block: the bracket, the alias when it
    is set and not empty, the label after a colon when it is set and not
    empty. *)
Lemma Node_str_shape (n : Node) :
  Node_str n =
    rbind
      match properties n with
      | [] => ok ""
      | _ :: _ => rbind (render_props (properties n)) (fun props => ok ("{" ++ props ++ "}"))
      end
      (fun block =>
         ok ("(" ++ (if truthy (alias n) then text_or_empty (alias n) else "")
                 ++ (if truthy (label n) then ":" ++ text_or_empty (label n) else "")
                 ++ block ++ ")")).
Proof.
  unfold Node_str.
  destruct (properties n) as [| kv p].
  - cbn [rbind ok]. destruct (truthy (alias n)), (truthy (label n));
      repeat (progress (rewrite ?append_assoc; cbn [append])); reflexivity.
  - destruct (render_props (kv :: p)) as [e | props]; [reflexivity |].
    cbn [rbind ok]. destruct (truthy (alias n)), (truthy (label n));
      repeat (progress (rewrite ?append_assoc; cbn [append])); reflexivity.
Qed.

(** C6: the node with alias [a], label [Person] and the one property
    [name] = [Bob] renders as [(a:Person{name:"Bob"})], whatever its remote
    id; and a property whose value is [None] leaves no trace in the rendered
    block: the block is the one of the non-null entries alone, and putting a
    [None]-valued entry anywhere among the properties changes neither the
    block nor, when there is another property, the rendered node. *)
Theorem Node_str_omits_null_properties :
  (forall i : option Z,
     Node_str {| id := i; alias := Some "a"; label := Some "Person";
                 properties := [("name", VStr "Bob")] |}
     = ok ("(a:Person{name:" ++ dq ++ "Bob" ++ dq ++ "})"))
  /\ (forall p : dict value,
        render_props p = render_props (filter (fun kv => notnull (snd kv)) p))
  /\ (forall (n : Node) (pre post : dict value) (k : string),
        render_props (pre ++ (k, VNone) :: post)%list = render_props (pre ++ post)%list
        /\ ((pre ++ post)%list <> [] ->
            Node_str (set_properties (pre ++ (k, VNone) :: post)%list n)
            = Node_str (set_properties (pre ++ post)%list n))).
Proof.
  split; [| split].
  - reflexivity.
  - exact render_props_filter.
  - intros n pre post k.
    assert (E : render_props (pre ++ (k, VNone) :: post)%list
                = render_props (pre ++ post)%list).
    { unfold render_props. now rewrite filter_notnull_insert_none. }
    split; [exact E |].
    intros NE. rewrite !Node_str_shape. cbn [set_properties properties alias label].
    rewrite E.
    destruct (pre ++ post)%list as [| x l] eqn:Epp; [congruence |].
    destruct (pre ++ (k, VNone) :: post)%list eqn:Epk; [| reflexivity].
    destruct pre; discriminate.
Qed.

(** C10: a node whose properties are not empty and all [None] renders with an
    empty block [{}] between its head and the closing bracket, and
    [toString] gives [{}]. *)
Theorem Node_str_all_null_keeps_braces (n : Node) :
  properties n <> [] ->
  (forall kv, In kv (properties n) -> snd kv = VNone) ->
  Node_str n =
    ok ("(" ++ (if truthy (alias n) then text_or_empty (alias n) else "")
            ++ (if truthy (label n) then ":" ++ text_or_empty (label n) else "")
            ++ "{}" ++ ")")
  /\ Node_toString n = ok "{}".
Proof.
  intros NE Hnone.
  assert (R : render_props (properties n) = ok "").
  { unfold render_props. now rewrite filter_notnull_all_none. }
  split.
  - rewrite Node_str_shape. destruct (properties n); [congruence |].
    rewrite R. reflexivity.
  - unfold Node_toString. destruct (properties n); [congruence |].
    rewrite R. reflexivity.
Qed.

(* ================================================================= *)
(** ** add_edge and delete *)

Lemma node_exists_registered (g : Graph) (a : option string) :
  node_exists g a = true <-> registered g a.
Proof.
  unfold node_exists, registered. destruct a as [k |].
  - destruct (dict_get k (nodes g)) as [n |] eqn:G.
    + split; [| reflexivity]. intros _. exists k. split; [reflexivity |].
      exact (dict_get_some_key _ _ _ G).
    + split; [discriminate |]. intros [k' [[= <-] I]].
      apply dict_get_none_key in G. contradiction.
  - split; [discriminate | intros [k [E _]]; discriminate].
Qed.

(** C5: with validation on, [add_edge] raises [AssertionError] and changes
    nothing when the alias of the source or of the destination is not a key
    of the node table; when both are keys it returns, the edge is the new
    last element of [edges] and of the pending edges, and nothing is sent. *)
Theorem add_edge_requires_registered_endpoints (edge : Edge) (s : Env) :
  (~ (registered (self s) (alias (src_node edge))
      /\ registered (self s) (alias (dest_node edge))) ->
   add_edge edge true s = (s, raise AssertionError))
  /\ (registered (self s) (alias (src_node edge)) ->
      registered (self s) (alias (dest_node edge)) ->
      snd (add_edge edge true s) = ok tt
      /\ edges (self (fst (add_edge edge true s))) = (edges (self s) ++ [edge])%list
      /\ _edges_to_commit (self (fst (add_edge edge true s)))
         = (_edges_to_commit (self s) ++ [edge])%list
      /\ nodes (self (fst (add_edge edge true s))) = nodes (self s)
      /\ _nodes_to_commit (self (fst (add_edge edge true s))) = _nodes_to_commit (self s)
      /\ wire (fst (add_edge edge true s)) = wire s).
Proof.
  split.
  - intros H. unfold add_edge, bind, get_self, lift, ok. cbn beta iota.
    destruct (node_exists (self s) (alias (src_node edge))) eqn:Hs;
      destruct (node_exists (self s) (alias (dest_node edge))) eqn:Hd;
      try reflexivity.
    exfalso. apply H. split; now apply node_exists_registered.
  - intros Hs Hd. apply node_exists_registered in Hs, Hd.
    unfold add_edge, bind, get_self, lift, ok. cbn beta iota. rewrite Hs, Hd. cbn.
    repeat split.
Qed.

(** C9: [delete] first resets the object and then hands [GRAPH.DELETE] to the
    connection, so whatever the connection answers, and also when it raises,
    the node table, the edges, both pending collections, the three cached
    lists and the recreate flag are empty or false afterwards. *)
Theorem delete_resets_before_remote_call (s : Env) :
  delete s =
    execute ["GRAPH.DELETE"; name (self s)]
      {| self := _initialize (self s); redis_con := redis_con s;
         wire := wire s; logged := logged s |}
  /\ self (fst (delete s)) = _initialize (self s)
  /\ nodes (self (fst (delete s))) = []
  /\ edges (self (fst (delete s))) = []
  /\ _nodes_to_commit (self (fst (delete s))) = []
  /\ _edges_to_commit (self (fst (delete s))) = []
  /\ _labels (self (fst (delete s))) = []
  /\ _relationshipTypes (self (fst (delete s))) = []
  /\ _properties (self (fst (delete s))) = []
  /\ recreate_flag (self (fst (delete s))) = false
  /\ wire (fst (delete s)) = (wire s ++ [["GRAPH.DELETE"; name (self s)]])%list
  /\ (forall c e,
        execute_command (redis_con s) ["GRAPH.DELETE"; name (self s)] = (c, inl e) ->
        snd (delete s) = inl e).
Proof.
  assert (E : delete s =
    execute ["GRAPH.DELETE"; name (self s)]
      {| self := _initialize (self s); redis_con := redis_con s;
         wire := wire s; logged := logged s |}) by reflexivity.
  split; [exact E |]. rewrite E. unfold execute. cbn [self redis_con wire logged].
  destruct (execute_command (redis_con s) ["GRAPH.DELETE"; name (self s)]) as [c r] eqn:X.
  cbn. repeat split. intros c0 e [= -> ->]. reflexivity.
Qed.

(* ================================================================= *)
(** ** Cutting a list into runs *)

Lemma chunks_fuel_enough {A} (r : nat) : (0 < r)%nat ->
  forall (f f' : nat) (l : list A),
    (List.length l <= f)%nat -> (List.length l <= f')%nat ->
    chunks_fuel f r l = chunks_fuel f' r l.
Proof.
  intros Hr. induction f as [| f IH]; intros f' l Hf Hf'.
  - destruct l; [| simpl in Hf; lia]. now destruct f'.
  - destruct l as [| x l]; [now destruct f' |].
    destruct f' as [| f']; [simpl in Hf'; lia |].
    cbn [chunks_fuel]. f_equal.
    apply IH; rewrite length_skipn; cbn [List.length] in *; lia.
Qed.

Lemma chunks_nil {A} (r : nat) : chunks r (@nil A) = [].
Proof. reflexivity. Qed.

Lemma chunks_step {A} (r : nat) (l : list A) : (0 < r)%nat -> l <> [] ->
  chunks r l = firstn r l :: chunks r (skipn r l).
Proof.
  intros Hr Hl. unfold chunks. destruct l as [| x l]; [congruence |].
  cbn [List.length chunks_fuel]. f_equal.
  apply chunks_fuel_enough; [exact Hr | | lia].
  rewrite length_skipn. cbn [List.length]. lia.
Qed.

Lemma chunks_full_run {A} (r : nat) (a l : list A) : (0 < r)%nat ->
  List.length a = r -> chunks r (a ++ l)%list = a :: chunks r l.
Proof.
  intros Hr Ha.
  assert (Hne : (a ++ l)%list <> []) by (destruct a; [simpl in Ha; lia | discriminate]).
  rewrite (chunks_step r _ Hr Hne).
  rewrite firstn_app, skipn_app, Ha, Nat.sub_diag.
  rewrite firstn_all2, skipn_all2 by lia. simpl.
  now rewrite app_nil_r.
Qed.

Lemma chunks_short_run {A} (r : nat) (l : list A) : (0 < r)%nat ->
  l <> [] -> (List.length l <= r)%nat -> chunks r l = [l].
Proof.
  intros Hr Hl Hlen. rewrite (chunks_step r _ Hr Hl).
  rewrite firstn_all2, skipn_all2 by exact Hlen. reflexivity.
Qed.

(** Induction along the runs: a property of [[]] that passes from the rest
    after the first run to the whole list holds of every list. *)
Lemma run_induction {A} (r : nat) (P : list A -> Prop) : (0 < r)%nat ->
  P [] ->
  (forall l, l <> [] -> P (skipn r l) -> P l) ->
  forall l, P l.
Proof.
  intros Hr Hnil Hstep l.
  remember (List.length l) as n eqn:En.
  revert l En. induction n as [n IH] using lt_wf_ind. intros l En.
  destruct l as [| x l]; [exact Hnil |].
  apply Hstep; [discriminate |].
  apply (IH (List.length (skipn r (x :: l)))); [| reflexivity].
  rewrite length_skipn. subst n. cbn [List.length]. lia.
Qed.

Lemma ceil_div_step (n r : nat) : (0 < r)%nat -> (0 < n)%nat ->
  ceil_div n r = S (ceil_div (n - r) r).
Proof.
  intros Hr Hn. unfold ceil_div.
  destruct (Nat.le_gt_cases r n) as [Hle | Hlt].
  - replace (n + r - 1)%nat with ((n - r + r - 1) + 1 * r)%nat by lia.
    rewrite Nat.div_add by lia. lia.
  - replace (n - r)%nat with 0%nat by lia.
    replace (n + r - 1)%nat with ((n - 1) + 1 * r)%nat by lia.
    rewrite Nat.div_add by lia.
    rewrite (Nat.div_small (n - 1) r) by lia.
    rewrite (Nat.div_small (0 + r - 1) r) by lia. reflexivity.
Qed.

Lemma chunks_concat {A} (r : nat) (l : list A) : (0 < r)%nat ->
  List.concat (chunks r l) = l.
Proof.
  intros Hr. apply (run_induction r (fun l => List.concat (chunks r l) = l) Hr);
    [reflexivity |].
  intros l0 Hne IH. rewrite (chunks_step r _ Hr Hne). simpl. rewrite IH.
  apply firstn_skipn.
Qed.

Lemma chunks_count {A} (r : nat) (l : list A) : (0 < r)%nat ->
  List.length (chunks r l) = ceil_div (List.length l) r.
Proof.
  intros Hr.
  apply (run_induction r
           (fun l => List.length (chunks r l) = ceil_div (List.length l) r) Hr).
  - unfold ceil_div. simpl. symmetry. apply Nat.div_small. lia.
  - intros l0 Hne IH. rewrite (chunks_step r _ Hr Hne). simpl. rewrite IH.
    rewrite length_skipn. symmetry. apply ceil_div_step; [exact Hr |].
    destruct l0; [congruence | cbn [List.length]; lia].
Qed.

Lemma chunks_sizes {A} (r : nat) (l : list A) : (0 < r)%nat ->
  forall j, (j < List.length (chunks r l))%nat ->
    List.length (nth j (chunks r l) []) = Nat.min r (List.length l - j * r).
Proof.
  intros Hr.
  apply (run_induction r
           (fun l => forall j, (j < List.length (chunks r l))%nat ->
              List.length (nth j (chunks r l) []) = Nat.min r (List.length l - j * r)) Hr).
  - intros j Hj. simpl in Hj. lia.
  - intros l0 Hne IH j Hj. rewrite (chunks_step r _ Hr Hne) in *.
    destruct j as [| j].
    + simpl. rewrite length_firstn. lia.
    + simpl in Hj. cbn [nth]. rewrite IH by lia. rewrite length_skipn.
      f_equal. lia.
Qed.

(* ================================================================= *)
(** ** The monad and the command buffer *)

Lemma bind_assoc_at {A B C} (m : M A) (k : A -> M B) (h : B -> M C) (s : Env) :
  bind (bind m k) h s = bind m (fun x => bind (k x) h) s.
Proof. unfold bind. destruct (m s) as [s' [e | a]]; reflexivity. Qed.

Lemma bind_lift_ok {A B} (a : A) (k : A -> M B) (s : Env) :
  bind (lift (ok a)) k s = k a s.
Proof. reflexivity. Qed.

Lemma bind_get_self {B} (k : Graph -> M B) (s : Env) :
  bind get_self k s = k (self s) s.
Proof. reflexivity. Qed.

Lemma bind_ret {A B} (a : A) (k : A -> M B) (s : Env) :
  bind (ret a) k s = k a s.
Proof. reflexivity. Qed.

Lemma length_append (a b : string) :
  String.length (a ++ b) = (String.length a + String.length b)%nat.
Proof. induction a; simpl; congruence. Qed.

Lemma trail_snoc (cur : list string) (f : string) :
  trail (cur ++ [f])%list = trail cur ++ f ++ ",".
Proof.
  induction cur as [| g cur IH]; simpl.
  - reflexivity.
  - rewrite IH, !append_assoc. reflexivity.
Qed.

Lemma buffer_snoc (cur : list string) (f : string) :
  buffer cur ++ f ++ "," = buffer (cur ++ [f])%list.
Proof. unfold buffer. now rewrite trail_snoc, append_assoc. Qed.

Lemma trail_join (cur : list string) : cur <> [] ->
  trail cur = PyStr.join "," cur ++ ",".
Proof.
  induction cur as [| f cur IH]; [congruence |]. intros _.
  destruct cur as [| g cur].
  - reflexivity.
  - change (trail (f :: g :: cur)) with (f ++ "," ++ trail (g :: cur)).
    rewrite IH by discriminate.
    change (PyStr.join "," (f :: g :: cur)) with (f ++ "," ++ PyStr.join "," (g :: cur)).
    now rewrite !append_assoc.
Qed.

Lemma buffer_join (cur : list string) : cur <> [] ->
  buffer cur = (CREATE_STR ++ PyStr.join "," cur) ++ String PyStr.comma "".
Proof. intros H. unfold buffer. now rewrite trail_join, append_assoc. Qed.

Lemma buffer_longer (cur : list string) : cur <> [] ->
  (PyStr.len (buffer cur) >? PyStr.len CREATE_STR) = true.
Proof.
  intros H. rewrite buffer_join by exact H. unfold PyStr.len.
  rewrite !length_append. apply Z.gtb_lt. simpl String.length. lia.
Qed.

(** [query] on a buffer that holds fragments: the final comma goes, and the
    command carries the fragments joined by commas. *)
Lemma query_buffer (cur : list string) (s : Env) : cur <> [] ->
  query (buffer cur) None s = send_one s (create_command (name (self s)) cur).
Proof.
  intros H. unfold query. rewrite bind_ret.
  rewrite buffer_join by exact H. rewrite last_app_single.
  rewrite bind_lift_ok. rewrite Ascii.eqb_refl, drop_last_app_single.
  rewrite bind_get_self. unfold bind, execute, send_one, create_command, lift.
  destruct (execute_command (redis_con s) _) as [c [e | reply]]; reflexivity.
Qed.

Lemma flush_rest_empty (s : Env) : flush_rest (buffer []) s = (s, ok tt).
Proof. reflexivity. Qed.

Lemma flush_rest_buffer (cur : list string) (s : Env) : cur <> [] ->
  flush_rest (buffer cur) s =
    match send_one s (create_command (name (self s)) cur) with
    | (s', inl e) => (s', inl e)
    | (s', inr _) => (s', ok tt)
    end.
Proof.
  intros H. unfold flush_rest. rewrite buffer_longer by exact H.
  unfold bind. rewrite query_buffer by exact H.
  destruct (send_one s _) as [s' [e | qr]]; reflexivity.
Qed.

Lemma commit_list_unfold {A} (str : A -> result string) (l : list A) :
  _commit_list str l =
    match l with
    | [] => ret tt
    | _ :: _ => bind (commit_loop str l 0 (buffer [])) flush_rest
    end.
Proof. destruct l; reflexivity. Qed.

(* ================================================================= *)
(** ** The flush, batch by batch *)

Lemma send_one_self (s s' : Env) (cmd : list string) (r : result QueryResult) :
  send_one s cmd = (s', r) -> self s' = self s.
Proof.
  unfold send_one.
  destruct (execute_command (redis_con s) cmd) as [c [e | reply]];
    intros [= <- _]; reflexivity.
Qed.

Lemma flush_outcome_nil (s : Env) : flush_outcome (fun g => g) s [] = (s, ok tt).
Proof. destruct s. unfold flush_outcome. cbn. now rewrite app_nil_r. Qed.

Lemma flush_outcome_cons (done : Graph -> Graph) (s : Env) (cmd : list string)
  (rest : list (list string)) :
  flush_outcome done s (cmd :: rest) =
    match send_one s cmd with
    | (s', inl e) => (s', inl e)
    | (s', inr _) => flush_outcome done s' rest
    end.
Proof.
  unfold flush_outcome, send_one. cbn [send_all].
  destruct (execute_command (redis_con s) cmd) as [c [e | reply]]; [reflexivity |].
  destruct (QueryResult_new (self s) reply) as [e | qr]; [reflexivity |].
  cbn [self redis_con wire logged].
  destruct (send_all (self s) c rest) as [[c' sent] oe].
  rewrite <- app_assoc. reflexivity.
Qed.

Lemma next_index_wraps (i r : Z) : 0 < r -> i mod r = r - 1 -> (i + 1) mod r = 0.
Proof.
  intros Hr H. rewrite <- Z.add_mod_idemp_l by lia. rewrite H.
  replace (r - 1 + 1) with r by lia. apply Z.mod_same. lia.
Qed.

Lemma next_index_grows (i r : Z) : 0 < r -> 0 <= i mod r < r - 1 ->
  (i + 1) mod r = i mod r + 1.
Proof.
  intros Hr H. rewrite <- Z.add_mod_idemp_l by lia. apply Z.mod_small. lia.
Qed.

(** The loop of [_commit_list] followed by its last send, started with the
    fragments [cur] in the buffer: the commands are the runs of [cur] and the
    rendered items, sent until one fails. *)
Lemma commit_loop_flush {A} (str : A -> result string) (g : Graph) (rn : nat) :
  (0 < rn)%nat -> flush_rate g = Z.of_nat rn ->
  forall (l : list A) (frags cur : list string) (i : Z) (s : Env),
    self s = g ->
    rmap str l = ok frags ->
    (List.length cur < rn)%nat ->
    i mod flush_rate g = Z.of_nat (List.length cur) ->
    bind (commit_loop str l i (buffer cur)) flush_rest s
    = flush_outcome (fun g => g) s
        (map (create_command (name g)) (chunks rn (cur ++ frags)%list)).
Proof.
  intros Hrn Hr. induction l as [| item l IH]; intros frags cur i s Hs Hl Hcur Hi.
  - injection Hl as <-. rewrite app_nil_r. cbn [commit_loop]. rewrite bind_ret.
    destruct cur as [| f cur].
    + rewrite flush_rest_empty, chunks_nil. symmetry. apply flush_outcome_nil.
    + rewrite flush_rest_buffer by discriminate.
      rewrite chunks_short_run by (try discriminate; lia).
      cbn [map]. rewrite flush_outcome_cons, Hs.
      destruct (send_one s _) as [s' [e | qr]]; [reflexivity |].
      symmetry. apply flush_outcome_nil.
  - cbn [rmap] in Hl. unfold rbind in Hl.
    destruct (str item) as [e | f] eqn:Hitem; [discriminate |].
    destruct (rmap str l) as [e | frags'] eqn:Hrest; [discriminate |].
    injection Hl as <-.
    cbn [commit_loop]. rewrite bind_assoc_at, Hitem, bind_lift_ok. cbv zeta.
    rewrite buffer_snoc, bind_assoc_at, bind_get_self, Hs.
    unfold py_mod. replace (flush_rate g =? 0) with false by (symmetry; apply Z.eqb_neq; lia).
    rewrite bind_assoc_at, bind_lift_ok.
    replace (cur ++ f :: frags')%list with ((cur ++ [f]) ++ frags')%list
      by (rewrite <- app_assoc; reflexivity).
    destruct (i mod flush_rate g =? flush_rate g - 1) eqn:Hfull.
    + apply Z.eqb_eq in Hfull.
      rewrite chunks_full_run by (try exact Hrn; rewrite length_app; simpl; lia).
      cbn [map]. rewrite flush_outcome_cons, <- Hs.
      rewrite bind_assoc_at. unfold bind at 1.
      rewrite query_buffer by (destruct cur; discriminate).
      destruct (send_one s _) as [s1 [e | qr]] eqn:Hsend; [reflexivity |].
      apply send_one_self in Hsend. rewrite Hs.
      apply (IH frags' [] (i + 1) s1); try reflexivity.
      * congruence.
      * simpl. exact Hrn.
      * apply next_index_wraps; lia.
    + apply Z.eqb_neq in Hfull.
      apply (IH frags' (cur ++ [f])%list (i + 1) s); try reflexivity.
      * exact Hs.
      * rewrite length_app. simpl. lia.
      * rewrite length_app, next_index_grows by lia. simpl. lia.
Qed.

Lemma keeps_self_bind {A B} (m : M A) (k : A -> M B) :
  keeps_self m -> (forall a, keeps_self (k a)) -> keeps_self (bind m k).
Proof.
  intros Hm Hk s s' r. unfold bind.
  destruct (m s) as [s1 [e | a]] eqn:E.
  - intros [= <- _]. exact (Hm _ _ _ E).
  - intros H. rewrite (Hk a _ _ _ H). exact (Hm _ _ _ E).
Qed.

Lemma keeps_self_ret {A} (a : A) : keeps_self (ret a).
Proof. intros s s' r [= <- _]. reflexivity. Qed.

Lemma keeps_self_lift {A} (x : result A) : keeps_self (lift x).
Proof. intros s s' r [= <- _]. reflexivity. Qed.

Lemma keeps_self_get_self : keeps_self get_self.
Proof. intros s s' r [= <- _]. reflexivity. Qed.

Lemma keeps_self_execute (cmd : list string) : keeps_self (execute cmd).
Proof.
  intros s s' r. unfold execute.
  destruct (execute_command (redis_con s) cmd) as [c x]. intros [= <- _]. reflexivity.
Qed.

Create HintDb keeps.

#[local] Hint Resolve keeps_self_ret keeps_self_lift keeps_self_get_self
  keeps_self_execute : keeps.

Lemma keeps_self_query (q : string) (params : option (dict value)) :
  keeps_self (query q params).
Proof.
  unfold query.
  repeat (apply keeps_self_bind; [| intros ?]); auto with keeps.
  destruct params; auto with keeps.
Qed.

Lemma keeps_self_commit_loop {A} (str : A -> result string) (l : list A) :
  forall (i : Z) (q : string), keeps_self (commit_loop str l i q).
Proof.
  induction l as [| item l IH]; intros i q; cbn [commit_loop]; auto with keeps.
  repeat (apply keeps_self_bind; [| intros ?]); auto with keeps.
  destruct (_ =? _); [| apply IH].
  apply keeps_self_bind; [apply keeps_self_query | intros _; apply IH].
Qed.

Lemma keeps_self_commit_list {A} (str : A -> result string) (l : list A) :
  keeps_self (_commit_list str l).
Proof.
  unfold _commit_list. destruct (Nat.eqb _ _); auto with keeps.
  apply keeps_self_bind; [apply keeps_self_commit_loop | intros q].
  destruct (_ >? _); auto with keeps.
  apply keeps_self_bind; [apply keeps_self_query | auto with keeps].
Qed.

(** A flush is its [_commit_list] and then, only if that returned, the
    assignment that clears the pending collection. *)
Lemma flush_cases {A} (str : A -> result string) (pending : Graph -> list A)
  (clear : Graph -> Graph) (s s' : Env) (r : result unit) :
  bind get_self
    (fun g => bind (_commit_list str (pending g)) (fun _ => modify_self clear)) s
  = (s', r) ->
  match r with
  | inl _ => self s' = self s
  | inr _ => self s' = clear (self s)
  end.
Proof.
  rewrite bind_get_self. unfold bind.
  destruct (_commit_list str (pending (self s)) s) as [s1 [e | u]] eqn:E.
  - intros [= <- <-]. exact (keeps_self_commit_list _ _ _ _ _ E).
  - unfold modify_self. intros [= <- <-]. cbn.
    now rewrite (keeps_self_commit_list _ _ _ _ _ E).
Qed.

Lemma commit_list_flush {A} (str : A -> result string) (l : list A)
  (frags : list string) (rn : nat) (s : Env) :
  (0 < rn)%nat -> flush_rate (self s) = Z.of_nat rn ->
  rmap str l = ok frags ->
  _commit_list str l s
  = flush_outcome (fun g => g) s
      (map (create_command (name (self s))) (chunks rn frags)).
Proof.
  intros Hrn Hr Hl. rewrite commit_list_unfold. destruct l as [| item l].
  - injection Hl as <-. rewrite chunks_nil. symmetry. apply flush_outcome_nil.
  - apply (commit_loop_flush str (self s) rn Hrn Hr (item :: l) frags [] 0 s);
      try reflexivity; try assumption.
Qed.

Lemma flush_then_clear {A} (str : A -> result string) (l : list A)
  (clear : Graph -> Graph) (frags : list string) (rn : nat) (s : Env) :
  (0 < rn)%nat -> flush_rate (self s) = Z.of_nat rn ->
  rmap str l = ok frags ->
  bind (_commit_list str l) (fun _ => modify_self clear) s
  = flush_outcome clear s (map (create_command (name (self s))) (chunks rn frags)).
Proof.
  intros Hrn Hr Hl. unfold bind. rewrite (commit_list_flush str l frags rn s Hrn Hr Hl).
  unfold flush_outcome.
  destruct (send_all (self s) (redis_con s) _) as [[c sent] [e |]]; reflexivity.
Qed.

Lemma send_all_accepted (g : Graph) :
  (forall c cmd, exists c' reply, execute_command c cmd = (c', ok reply)) ->
  (forall reply, exists qr, QueryResult_new g reply = ok qr) ->
  forall cmds c, exists c', send_all g c cmds = (c', cmds, None).
Proof.
  intros Hx Hq. induction cmds as [| cmd cmds IH]; intros c.
  - now exists c.
  - cbn [send_all]. destruct (Hx c cmd) as [c1 [reply ->]]. unfold ok. cbn beta iota.
    destruct (Hq reply) as [qr ->]. unfold ok. cbn beta iota.
    destruct (IH c1) as [c2 ->]. now exists c2.
Qed.

Lemma send_all_outcome (g : Graph) (cmds : list (list string)) :
  forall (c c' : Conn) (sent : list (list string)) (oe : option exn),
    send_all g c cmds = (c', sent, oe) ->
    match oe with
    | None => sent = cmds
    | Some _ =>
        exists k, (k < List.length cmds)%nat /\ sent = firstn (S k) cmds
    end.
Proof.
  induction cmds as [| cmd cmds IH]; intros c c' sent oe; cbn [send_all].
  - intros [= _ <- <-]. reflexivity.
  - destruct (execute_command c cmd) as [c1 [e | reply]].
    + intros [= _ <- <-]. exists 0%nat. simpl. split; [lia | reflexivity].
    + destruct (QueryResult_new g reply) as [e | qr].
      * intros [= _ <- <-]. exists 0%nat. simpl. split; [lia | reflexivity].
      * destruct (send_all g c1 cmds) as [[c2 sent2] oe2] eqn:E.
        intros [= _ <- <-]. specialize (IH _ _ _ _ E).
        destruct oe2 as [e |].
        -- destruct IH as [k [Hk ->]]. exists (S k). simpl. split; [lia | reflexivity].
        -- now subst.
Qed.

Lemma rmap_length {A B} (f : A -> result B) (l : list A) (ys : list B) :
  rmap f l = ok ys -> List.length ys = List.length l.
Proof.
  revert ys. induction l as [| x l IH]; intros ys; cbn [rmap].
  - intros [= <-]. reflexivity.
  - unfold rbind. destruct (f x) as [e | y]; [discriminate |].
    destruct (rmap f l) as [e | ys']; [discriminate |].
    intros [= <-]. simpl. f_equal. now apply IH.
Qed.

(** C1: with a positive flush rate [rn], pending nodes that all render (to
    [frags], in order), pending edges that all render, and a connection and a
    decoder that accept what they are given, [commit] returns; for the nodes
    it has handed over one [CREATE] command per run of [rn] fragments, in
    order, the fragments of a command joined by commas, before the commands
    for the edges; there are [ceil(n/rn)] node commands for [n] pending
    nodes, command [j] holds [min rn (n - j*rn)] fragments (so [rn] each, and
    the rest in the last), which for [rn = 2] and [n = 5] is 2, 2 and 1; no
    node is pending afterwards.  With no node pending, whatever the flush
    rate and the connection, the node flush hands nothing to the connection,
    and with no edge pending either the whole [commit] hands nothing over. *)
Theorem commit_nodes_in_batches (s : Env) :
  (forall (rn : nat) (frags efrags : list string),
     (0 < rn)%nat ->
     flush_rate (self s) = Z.of_nat rn ->
     rmap Node_str (dict_values (_nodes_to_commit (self s))) = ok frags ->
     rmap Edge_str (_edges_to_commit (self s)) = ok efrags ->
     (forall c cmd, exists c' reply, execute_command c cmd = (c', ok reply)) ->
     (forall g reply, exists qr, QueryResult_new g reply = ok qr) ->
     exists c1 c2 : Conn,
       _commit_nodes s
       = ({| self := set_nodes_to_commit [] (self s);
             redis_con := c1;
             wire := (wire s ++ map (create_command (name (self s))) (chunks rn frags))%list;
             logged := logged s |}, ok tt)
       /\ commit s
          = ({| self := set_edges_to_commit [] (set_nodes_to_commit [] (self s));
                redis_con := c2;
                wire := ((wire s ++ map (create_command (name (self s))) (chunks rn frags))
                           ++ map (create_command (name (self s))) (chunks rn efrags))%list;
                logged := logged s |}, ok tt)
       /\ _nodes_to_commit (self (fst (commit s))) = []
       /\ List.concat (chunks rn frags) = frags
       /\ List.length (chunks rn frags)
          = ceil_div (List.length (_nodes_to_commit (self s))) rn
       /\ (forall j, (j < List.length (chunks rn frags))%nat ->
             List.length (nth j (chunks rn frags) [])
             = Nat.min rn (List.length (_nodes_to_commit (self s)) - j * rn))
       /\ (rn = 2%nat -> List.length (_nodes_to_commit (self s)) = 5%nat ->
           map (@List.length string) (chunks rn frags) = [2; 2; 1]%nat))
  /\ (_nodes_to_commit (self s) = [] ->
      _commit_nodes s
      = ({| self := set_nodes_to_commit [] (self s); redis_con := redis_con s;
            wire := wire s; logged := logged s |}, ok tt))
  /\ (_nodes_to_commit (self s) = [] -> _edges_to_commit (self s) = [] ->
      commit s
      = ({| self := set_edges_to_commit [] (set_nodes_to_commit [] (self s));
            redis_con := redis_con s; wire := wire s; logged := logged s |}, ok tt)).
Proof.
  split; [| split].
  - intros rn frags efrags Hrn Hr Hfrags Hefrags Hx Hq.
    pose proof (rmap_length _ _ _ Hfrags) as Hlen.
    unfold dict_values in Hlen. rewrite length_map in Hlen.
    destruct (send_all_accepted (self s) Hx (Hq (self s))
                (map (create_command (name (self s))) (chunks rn frags))
                (redis_con s)) as [c1 Hsend].
    assert (E : _commit_nodes s
       = ({| self := set_nodes_to_commit [] (self s);
             redis_con := c1;
             wire := (wire s ++ map (create_command (name (self s))) (chunks rn frags))%list;
             logged := logged s |}, ok tt)).
    { unfold _commit_nodes. rewrite bind_get_self.
      rewrite (flush_then_clear _ _ _ frags rn s Hrn Hr Hfrags).
      unfold flush_outcome. now rewrite Hsend. }
    destruct (send_all_accepted (set_nodes_to_commit [] (self s)) Hx
                (Hq (set_nodes_to_commit [] (self s)))
                (map (create_command (name (self s))) (chunks rn efrags))
                c1) as [c2 Hsend2].
    assert (E2 : commit s
       = ({| self := set_edges_to_commit [] (set_nodes_to_commit [] (self s));
             redis_con := c2;
             wire := ((wire s ++ map (create_command (name (self s))) (chunks rn frags))
                        ++ map (create_command (name (self s))) (chunks rn efrags))%list;
             logged := logged s |}, ok tt)).
    { unfold commit, bind at 1. rewrite E. cbn beta iota.
      unfold _commit_edges. rewrite bind_get_self.
      etransitivity;
        [exact (flush_then_clear Edge_str _ (set_edges_to_commit []) efrags rn
                  {| self := set_nodes_to_commit [] (self s);
                     redis_con := c1;
                     wire := (wire s ++ map (create_command (name (self s)))
                                          (chunks rn frags))%list;
                     logged := logged s |} Hrn Hr Hefrags) |].
      unfold flush_outcome. cbn [self redis_con wire logged set_nodes_to_commit name].
      cbn [self redis_con wire logged set_nodes_to_commit name] in Hsend2.
      now rewrite Hsend2. }
    exists c1, c2. split; [exact E |]. split; [exact E2 |]. rewrite E2.
    split; [reflexivity |].
    split; [now apply chunks_concat |].
    split; [rewrite chunks_count by exact Hrn; now rewrite Hlen |].
    split; [intros j Hj; rewrite chunks_sizes by assumption; now rewrite Hlen |].
    intros -> H5. rewrite <- Hlen in H5.
    do 6 (destruct frags as [| ? frags]; try discriminate). reflexivity.
  - intros Hnil. unfold _commit_nodes. rewrite bind_get_self, Hnil. reflexivity.
  - intros Hnil Henil. unfold commit, bind at 1.
    unfold _commit_nodes. rewrite bind_get_self, Hnil. cbn.
    rewrite Henil. reflexivity.
Qed.

(** C2: a flush that raises leaves the Graph object, hence both pending
    collections, exactly as they were when it was entered, whatever raised and
    at whichever batch; a flush that returns has replaced its pending
    collection by the empty one and touched nothing else.  With a positive
    flush rate and items that render, the flush is the sending of its batches
    one after the other: the first batch that is refused (by the connection or
    by the decoder) ends it with that exception, the batches before it and the
    refused one having been handed over, and the pending collection is emptied
    only when every batch has been handed over and accepted. *)
Theorem flush_failure_keeps_pending (s : Env) :
  (forall s' e, _commit_nodes s = (s', inl e) ->
     self s' = self s
     /\ _nodes_to_commit (self s') = _nodes_to_commit (self s)
     /\ _edges_to_commit (self s') = _edges_to_commit (self s))
  /\ (forall s' e, _commit_edges s = (s', inl e) ->
        self s' = self s
        /\ _nodes_to_commit (self s') = _nodes_to_commit (self s)
        /\ _edges_to_commit (self s') = _edges_to_commit (self s))
  /\ (forall s' u, _commit_nodes s = (s', inr u) ->
        self s' = set_nodes_to_commit [] (self s))
  /\ (forall s' u, _commit_edges s = (s', inr u) ->
        self s' = set_edges_to_commit [] (self s))
  /\ (forall (rn : nat) (frags : list string) c sent oe,
        (0 < rn)%nat -> flush_rate (self s) = Z.of_nat rn ->
        rmap Node_str (dict_values (_nodes_to_commit (self s))) = ok frags ->
        send_all (self s) (redis_con s)
          (map (create_command (name (self s))) (chunks rn frags)) = (c, sent, oe) ->
        _commit_nodes s =
          match oe with
          | Some e =>
              ({| self := self s; redis_con := c;
                  wire := (wire s ++ sent)%list; logged := logged s |}, inl e)
          | None =>
              ({| self := set_nodes_to_commit [] (self s); redis_con := c;
                  wire := (wire s ++ sent)%list; logged := logged s |}, ok tt)
          end)
  /\ (forall (rn : nat) (frags : list string) c sent oe,
        (0 < rn)%nat -> flush_rate (self s) = Z.of_nat rn ->
        rmap Edge_str (_edges_to_commit (self s)) = ok frags ->
        send_all (self s) (redis_con s)
          (map (create_command (name (self s))) (chunks rn frags)) = (c, sent, oe) ->
        _commit_edges s =
          match oe with
          | Some e =>
              ({| self := self s; redis_con := c;
                  wire := (wire s ++ sent)%list; logged := logged s |}, inl e)
          | None =>
              ({| self := set_edges_to_commit [] (self s); redis_con := c;
                  wire := (wire s ++ sent)%list; logged := logged s |}, ok tt)
          end)
  /\ (forall g c cmds c' sent oe,
        send_all g c cmds = (c', sent, oe) ->
        match oe with
        | None => sent = cmds
        | Some _ => exists k, (k < List.length cmds)%nat /\ sent = firstn (S k) cmds
        end)
  /\ (forall s1 u s' e,
        _commit_nodes s = (s1, inr u) -> _commit_edges s1 = (s', inl e) ->
        commit s = (s', inl e)
        /\ _nodes_to_commit (self s') = []
        /\ _edges_to_commit (self s') = _edges_to_commit (self s)).
Proof.
  repeat match goal with |- _ /\ _ => split end.
  - intros s' e H. apply flush_cases in H. cbn in H. now rewrite H.
  - intros s' e H. apply flush_cases in H. cbn in H. now rewrite H.
  - intros s' u H. now apply flush_cases in H.
  - intros s' u H. now apply flush_cases in H.
  - intros rn frags c sent oe Hrn Hr Hfrags Hsend.
    unfold _commit_nodes. rewrite bind_get_self.
    rewrite (flush_then_clear _ _ _ frags rn s Hrn Hr Hfrags).
    unfold flush_outcome. now rewrite Hsend.
  - intros rn frags c sent oe Hrn Hr Hfrags Hsend.
    unfold _commit_edges. rewrite bind_get_self.
    rewrite (flush_then_clear _ _ _ frags rn s Hrn Hr Hfrags).
    unfold flush_outcome. now rewrite Hsend.
  - intros g c cmds c' sent oe H. exact (send_all_outcome g cmds c c' sent oe H).
  - intros s1 u s' e H1 H2. split.
    + unfold commit, bind. now rewrite H1.
    + apply flush_cases in H1, H2. cbn in H1, H2. now rewrite H2, H1.
Qed.

(* ================================================================= *)
(** ** Replacing symbols, random aliases and the validator's modes *)

Lemma digit_not_ident_start (c : ascii) : is_digit c = true -> ident_start c = false.
Proof.
  without_collaborators.
  destruct c as [[] [] [] [] [] [] [] []]; vm_compute; congruence.
Qed.

Lemma alnum_ident_start (c : ascii) :
  is_alnum c = true -> ident_start c = negb (is_digit c).
Proof.
  without_collaborators.
  destruct c as [[] [] [] [] [] [] [] []]; vm_compute; congruence.
Qed.

Lemma line_feed_not_ident_char : ident_char PyStr.LF = false.
Proof. reflexivity. Qed.

Lemma all_chars_app (p : ascii -> bool) (a b : string) :
  all_chars p (a ++ b) = (all_chars p a && all_chars p b)%bool.
Proof.
  induction a as [| c a IH]; [reflexivity |].
  simpl. rewrite IH. now rewrite andb_assoc.
Qed.

Lemma all_chars_weaken (p q : ascii -> bool) (s : string) :
  (forall c, p c = true -> q c = true) ->
  all_chars p s = true -> all_chars q s = true.
Proof.
  intros Hpq. induction s as [| c s IH]; [reflexivity |].
  simpl. rewrite !andb_true_iff. intros [Hc Hs]. split; auto.
Qed.

(** A text made of identifier characters is accepted exactly when it
    follows the stated rule: it cannot end in a line feed. *)
Lemma re_match_ident_chars (t : string) :
  all_chars ident_char t = true ->
  re_match VALID_CYPHER_IDENIFIER t = spec_valid_identifier t.
Proof.
  intros Hall. apply eq_true_iff_eq. rewrite re_match_valid_identifier.
  split; [| now left]. intros [H | [u [-> _]]]; [exact H |].
  rewrite all_chars_app in Hall. apply andb_true_iff in Hall as [_ Hlf].
  simpl in Hlf. discriminate.
Qed.

Lemma substitute_underscore_length (s : string) :
  String.length (substitute "_" s) = String.length s.
Proof.
  induction s as [| c s IH]; [reflexivity |].
  simpl. destruct (is_alnum c); simpl; now rewrite IH.
Qed.

Lemma substitute_underscore_chars (s : string) :
  all_chars ident_char (substitute "_" s) = true.
Proof.
  induction s as [| c s IH]; [reflexivity |].
  simpl. destruct (is_alnum c) eqn:E; simpl; rewrite IH.
  - unfold ident_char. unfold is_alnum in E. rewrite E. reflexivity.
  - reflexivity.
Qed.

Lemma substitute_fixed (lit s : string) :
  all_chars is_alnum s = true -> substitute lit s = s.
Proof.
  induction s as [| c s IH]; [reflexivity |].
  simpl. rewrite andb_true_iff. intros [-> Hs]. simpl. now rewrite IH.
Qed.

Lemma substitute_underscore_idempotent (s : string) :
  substitute "_" (substitute "_" s) = substitute "_" s.
Proof.
  induction s as [| c s IH]; [reflexivity |].
  simpl. destruct (is_alnum c) eqn:E; simpl; [rewrite E |]; simpl; now rewrite IH.
Qed.

Lemma substitute_underscore_valid (s : string) :
  spec_valid_identifier (substitute "_" s) =
    match s with
    | EmptyString => false
    | String c _ => negb (is_digit c)
    end.
Proof.
  destruct s as [| c s]; [reflexivity |].
  simpl. destruct (is_alnum c) eqn:E; simpl.
  - rewrite substitute_underscore_chars, andb_true_r. now apply alnum_ident_start.
  - rewrite substitute_underscore_chars.
    unfold is_alnum in E. apply orb_false_iff in E as [E _].
    apply orb_false_iff in E as [-> _]. reflexivity.
Qed.

(** X1: [replace_symbols] with the default replacement, given that [re] takes the
    text [_] as it is: the result has the length of the input and only
    letters, digits and underscores; a text of letters and digits is returned
    unchanged; replacing again changes nothing; and the validator accepts
    the result exactly when the input is not empty and does not start with a
    digit. *)
Theorem replace_symbols_gives_identifier_characters (s : string) :
  expand_template "_" = ok "_" ->
  exists t,
    replace_symbols s "_" = ok t
    /\ String.length t = String.length s
    /\ all_chars ident_char t = true
    /\ (all_chars is_alnum s = true -> t = s)
    /\ replace_symbols t "_" = ok t
    /\ (validate_cypher_identifier (Some t) true true = ([], ok true) <->
        match s with
        | EmptyString => False
        | String c _ => is_digit c = false
        end).
Proof.
  intros Hexp. exists (substitute "_" s). unfold replace_symbols. rewrite Hexp.
  cbn [rbind ok]. repeat split.
  - apply substitute_underscore_length.
  - apply substitute_underscore_chars.
  - apply substitute_fixed.
  - now rewrite substitute_underscore_idempotent.
  - rewrite validate_text, re_match_ident_chars by apply substitute_underscore_chars.
    rewrite substitute_underscore_valid. destruct s as [| c s]; [discriminate |].
    destruct (is_digit c); [discriminate | reflexivity].
  - rewrite validate_text, re_match_ident_chars by apply substitute_underscore_chars.
    rewrite substitute_underscore_valid. destruct s as [| c s]; [contradiction |].
    intros ->. reflexivity.
Qed.

(** X2: [replace_all_symbols] treats every text with the default replacement
    whatever replacement it is given: the result lists, in order, the texts
    with every character that is no letter or digit turned into [_]. *)
Theorem replace_all_symbols_ignores_replacement (strings : list string)
  (replacement : string) :
  expand_template "_" = ok "_" ->
  replace_all_symbols strings replacement = ok (map (substitute "_") strings)
  /\ (forall other, replace_all_symbols strings other
                    = replace_all_symbols strings replacement).
Proof.
  intros Hexp. split; [| reflexivity].
  unfold replace_all_symbols. induction strings as [| s strings IH]; [reflexivity |].
  cbn [rmap map]. rewrite IH. unfold replace_symbols. rewrite Hexp. reflexivity.
Qed.

Lemma choice_lowercase (r : nat) :
  exists c, choice ascii_lowercase r = ok c /\ is_lower c = true.
Proof.
  without_collaborators.
  unfold choice. assert (H : (r mod String.length ascii_lowercase < 26)%nat)
    by (apply Nat.mod_upper_bound; discriminate).
  remember (r mod String.length ascii_lowercase)%nat as n eqn:E. clear E.
  do 26 (destruct n as [| n]; [eexists; split; reflexivity |]). lia.
Qed.

Lemma rmap_all {A B} (f : A -> result B) (P : B -> Prop) (l : list A) :
  (forall x, exists y, f x = ok y /\ P y) ->
  exists ys, rmap f l = ok ys /\ List.length ys = List.length l /\ Forall P ys.
Proof.
  intros Hf. induction l as [| x l [ys [E [L F]]]].
  - exists []. repeat split. constructor.
  - destruct (Hf x) as [y [Ey Py]]. exists (y :: ys).
    cbn [rmap]. rewrite Ey, E. repeat split; [simpl; now rewrite L | now constructor].
Qed.

Lemma string_of_list_length (cs : list ascii) :
  String.length (string_of_list_ascii cs) = List.length cs.
Proof. induction cs; simpl; congruence. Qed.

Lemma string_of_list_all (p : ascii -> bool) (cs : list ascii) :
  Forall (fun c => p c = true) cs -> all_chars p (string_of_list_ascii cs) = true.
Proof. induction 1 as [| c cs Hc _ IH]; simpl; [reflexivity | now rewrite Hc, IH]. Qed.

Lemma lower_is_ident_char (c : ascii) : is_lower c = true -> ident_char c = true.
Proof. intros H. unfold ident_char. rewrite H. now rewrite orb_true_r. Qed.

Lemma lowercase_text_valid (t : string) :
  t <> "" -> all_chars is_lower t = true -> spec_valid_identifier t = true.
Proof.
  destruct t as [| c t]; [congruence |]. intros _. simpl.
  rewrite !andb_true_iff. intros [Hc Ht]. split.
  - unfold ident_start. now rewrite Hc.
  - exact (all_chars_weaken _ _ _ lower_is_ident_char Ht).
Qed.

(** X3: [random_string] never raises; whatever the generator draws, the text has
    the requested length (none for a negative one) and only lowercase
    letters, so when the length is positive the validator accepts it. *)
Theorem random_string_is_lowercase_identifier (rand : nat -> nat) (length : Z) :
  exists t,
    random_string rand length = ok t
    /\ String.length t = Z.to_nat length
    /\ all_chars is_lower t = true
    /\ (0 < length ->
        validate_cypher_identifier (Some t) true true = ([], ok true)).
Proof.
  destruct (rmap_all (fun x => choice ascii_lowercase (rand x))
              (fun c => is_lower c = true) (seq 0 (Z.to_nat length))
              (fun x => choice_lowercase (rand x))) as [cs [E [L F]]].
  exists (string_of_list_ascii cs). unfold random_string. rewrite E.
  rewrite length_seq in L.
  assert (Hlen : String.length (string_of_list_ascii cs) = Z.to_nat length)
    by now rewrite string_of_list_length.
  assert (Hall : all_chars is_lower (string_of_list_ascii cs) = true)
    by now apply string_of_list_all.
  repeat split; try assumption.
  intros Hpos. rewrite validate_text, re_match_ident_chars
    by exact (all_chars_weaken _ _ _ lower_is_ident_char Hall).
  rewrite lowercase_text_valid; [reflexivity | | exact Hall].
  intros E0. rewrite E0 in Hlen. simpl in Hlen. lia.
Qed.

(** X4: The two modes of the validator agree.  With [raise_on_invalid] off it
    never raises; it returns [True] with no warning exactly when the raising
    mode returns, and otherwise returns [False] after one warning, whose text
    is the message the raising mode puts in its [ValueError].  [None] is
    refused when [none_is_okay] is off. *)
Theorem validator_modes_agree (identifier : option string) (none_is_okay : bool) :
  (validate_cypher_identifier identifier none_is_okay true = ([], ok true)
   /\ validate_cypher_identifier identifier none_is_okay false = ([], ok true))
  \/ (exists msg,
        validate_cypher_identifier identifier none_is_okay true
        = ([], raise (ValueError msg))
        /\ validate_cypher_identifier identifier none_is_okay false
           = ([msg], ok false)
        /\ (identifier = None -> none_is_okay = false
                                 /\ msg = "Invalid Cypher identifier. Found 'None'")).
Proof.
  unfold validate_cypher_identifier.
  destruct identifier as [s |].
  - destruct (re_match VALID_CYPHER_IDENIFIER s).
    + left. now split.
    + right. eexists. repeat split; discriminate.
  - destruct none_is_okay.
    + left. now split.
    + right. eexists. repeat split.
Qed.

(* ================================================================= *)
(** ** Node.validate, and equality as a relation *)

Lemma validate_option (o : option string) :
  validate_cypher_identifier o true true =
    match o with
    | None => ([], ok true)
    | Some s =>
        if re_match VALID_CYPHER_IDENIFIER s then ([], ok true)
        else ([], raise (ValueError ("Invalid Cypher identifier: '" ++ s ++ "'")))
    end.
Proof. destruct o as [s |]; [apply validate_text | reflexivity]. Qed.

Lemma validate_keys_outcome (keys : list string) :
  (validate_keys keys = ([], ok tt) /\
   Forall (fun k => re_match VALID_CYPHER_IDENIFIER k = true) keys)
  \/ (exists pre s post,
        keys = (pre ++ s :: post)%list
        /\ Forall (fun k => re_match VALID_CYPHER_IDENIFIER k = true) pre
        /\ re_match VALID_CYPHER_IDENIFIER s = false
        /\ validate_keys keys
           = ([], raise (ValueError ("Invalid Cypher identifier: '" ++ s ++ "'")))).
Proof.
  induction keys as [| k keys IH].
  - left. split; [reflexivity | constructor].
  - cbn [validate_keys]. rewrite validate_text.
    destruct (re_match VALID_CYPHER_IDENIFIER k) eqn:Hk.
    + cbn [wbind ok]. destruct IH as [[E F] | [pre [s [post [-> [F [Hs E]]]]]]].
      * left. rewrite E. split; [reflexivity | now constructor].
      * right. exists (k :: pre), s, post. rewrite E.
        repeat split; [now constructor | exact Hs].
    + right. exists [], k, keys. repeat split; [constructor | exact Hk].
Qed.

Lemma wbind_ok {A B} (a : A) (k : A -> list string * result B) :
  wbind ([], ok a) k = k a.
Proof. unfold wbind, ok. now destruct (k a). Qed.

Lemma first_refused_unique (p : string -> bool) (pre post pre' post' : list string)
  (s k : string) :
  (pre ++ s :: post)%list = (pre' ++ k :: post')%list ->
  Forall (fun x => p x = true) pre -> Forall (fun x => p x = true) pre' ->
  p s = false -> p k = false -> s = k.
Proof.
  revert pre'. induction pre as [| x pre IH]; intros pre' E F F' Hs Hk.
  - destruct pre' as [| y pre']; simpl in E; injection E as -> _; [reflexivity |].
    inversion F'; congruence.
  - destruct pre' as [| y pre']; simpl in E; injection E as -> E.
    + inversion F; congruence.
    + inversion F; inversion F'; subst. eauto.
Qed.

Lemma Node_validate_unfold (n : Node) :
  Node_validate n =
    let keys := validate_keys (dict_keys (properties n)) in
    let refused s := ([], raise (ValueError ("Invalid Cypher identifier: '" ++ s ++ "'"))) in
    let after_alias :=
      match label n with
      | Some l => if re_match VALID_CYPHER_IDENIFIER l then keys else refused l
      | None => keys
      end in
    match alias n with
    | Some a => if re_match VALID_CYPHER_IDENIFIER a then after_alias else refused a
    | None => after_alias
    end.
Proof.
  unfold Node_validate. rewrite !validate_option. cbv zeta.
  destruct (alias n) as [a |]; [destruct (re_match VALID_CYPHER_IDENIFIER a) |];
    try reflexivity;
    rewrite wbind_ok;
    (destruct (label n) as [l |]; [destruct (re_match VALID_CYPHER_IDENIFIER l) |]);
    try reflexivity; now rewrite wbind_ok.
Qed.

(** X5: [Node.validate] checks the alias, then the label, then the property
    names in order, and stops at the first one the validator refuses: it
    returns exactly when all of them are accepted, and otherwise raises the
    [ValueError] of the first refused name, nothing having been logged. *)
Theorem Node_validate_stops_at_first_refused_name (n : Node) :
  (Node_validate n = ([], ok tt) <->
   accepted (alias n) /\ accepted (label n)
   /\ Forall (fun k => re_match VALID_CYPHER_IDENIFIER k = true)
             (dict_keys (properties n)))
  /\ (forall a, alias n = Some a -> re_match VALID_CYPHER_IDENIFIER a = false ->
        Node_validate n
        = ([], raise (ValueError ("Invalid Cypher identifier: '" ++ a ++ "'"))))
  /\ (forall l, accepted (alias n) -> label n = Some l ->
        re_match VALID_CYPHER_IDENIFIER l = false ->
        Node_validate n
        = ([], raise (ValueError ("Invalid Cypher identifier: '" ++ l ++ "'"))))
  /\ (forall pre k post, accepted (alias n) -> accepted (label n) ->
        dict_keys (properties n) = (pre ++ k :: post)%list ->
        Forall (fun k => re_match VALID_CYPHER_IDENIFIER k = true) pre ->
        re_match VALID_CYPHER_IDENIFIER k = false ->
        Node_validate n
        = ([], raise (ValueError ("Invalid Cypher identifier: '" ++ k ++ "'")))).
Proof.
  assert (Hafter : accepted (alias n) -> accepted (label n) ->
                   Node_validate n = validate_keys (dict_keys (properties n))).
  { intros Ha Hl. rewrite Node_validate_unfold. cbv zeta.
    destruct (alias n) as [a |]; destruct (label n) as [l |]; unfold accepted in Ha, Hl;
      rewrite ?Ha, ?Hl; reflexivity. }
  split; [| split; [| split]].
  - split.
    + intros H0. pose proof H0 as H. rewrite Node_validate_unfold in H. cbv zeta in H.
      assert (Ha : accepted (alias n)).
      { destruct (alias n) as [a |]; [| exact I]. unfold accepted.
        destruct (re_match VALID_CYPHER_IDENIFIER a); [reflexivity | discriminate]. }
      assert (Hl : accepted (label n)).
      { destruct (alias n) as [a |]; [destruct (re_match VALID_CYPHER_IDENIFIER a);
                                       [| discriminate] |];
          (destruct (label n) as [l |]; [| exact I]); unfold accepted;
          (destruct (re_match VALID_CYPHER_IDENIFIER l); [reflexivity | discriminate]). }
      split; [exact Ha |]. split; [exact Hl |].
      rewrite (Hafter Ha Hl) in H0.
      destruct (validate_keys_outcome (dict_keys (properties n)))
        as [[_ F] | [pre [s [post [_ [_ [_ E']]]]]]]; [exact F |].
      rewrite E' in H0. discriminate.
    + intros [Ha [Hl F]]. rewrite (Hafter Ha Hl).
      destruct (validate_keys_outcome (dict_keys (properties n)))
        as [[E _] | [pre [s [post [Ek [_ [Hs _]]]]]]]; [exact E |].
      exfalso. rewrite Ek in F. apply Forall_app in F as [_ F].
      inversion F; congruence.
  - intros a Ha Hr. rewrite Node_validate_unfold, Ha, Hr. reflexivity.
  - intros l Ha Hl Hr. rewrite Node_validate_unfold. cbv zeta. rewrite Hl, Hr.
    destruct (alias n) as [a |]; unfold accepted in Ha; rewrite ?Ha; reflexivity.
  - intros pre k post Ha Hl Ek F Hk. rewrite (Hafter Ha Hl).
    destruct (validate_keys_outcome (dict_keys (properties n)))
      as [[_ F'] | [pre' [s [post' [Ek' [F' [Hs E]]]]]]].
    + exfalso. rewrite Ek in F'. apply Forall_app in F' as [_ F'].
      inversion F'; congruence.
    + rewrite E. rewrite Ek in Ek'.
      now rewrite <- (first_refused_unique _ _ _ _ _ _ _ Ek' F F' Hk Hs).
Qed.

Lemma py_eq_sym (v w : value) : py_eq v w = py_eq w v.
Proof.
  without_collaborators.
  destruct v as [| x | x | x | x], w as [| y | y | y | y]; simpl; try reflexivity;
    auto using Z.eqb_sym, String.eqb_sym.
  destruct x, y; reflexivity.
Qed.

Lemma props_match_sym (a b : dict value) : props_match a b -> props_match b a.
Proof.
  without_collaborators.
  intros H k. specialize (H k). unfold value_match in *.
  destruct (dict_get k a), (dict_get k b); try exact H.
  now rewrite py_eq_sym.
Qed.

Lemma props_match_refl (a : dict value) : props_match a a.
Proof.
  intros k. unfold value_match. destruct (dict_get k a); [apply py_eq_refl | exact I].
Qed.

Lemma dict_eq_sym (a b : dict value) :
  NoDup (dict_keys a) -> NoDup (dict_keys b) -> dict_eq a b = dict_eq b a.
Proof.
  intros Ha Hb. apply eq_true_iff_eq.
  rewrite (dict_eq_props_match a b Ha Hb), (dict_eq_props_match b a Hb Ha).
  split; apply props_match_sym.
Qed.

Lemma opt_str_ne_sym (a b : option string) : opt_str_ne a b = opt_str_ne b a.
Proof.
  destruct a, b; simpl; try reflexivity. now rewrite String.eqb_sym.
Qed.

Lemma same_remote_id_sym (a b : option Z) : same_remote_id a b = same_remote_id b a.
Proof. destruct a, b; simpl; try reflexivity. apply Z.eqb_sym. Qed.

(** X6: [Node.__eq__] as a relation on nodes whose properties are dicts: every
    node equals itself, the answer does not depend on the side a node is on,
    but equality is not transitive: a node equal to a second by remote id and
    that second equal to a third by label and properties need not equal the
    third. *)
Theorem Node_eq_symmetric_not_transitive :
  (forall a, NoDup (dict_keys (properties a)) -> Node_eq a a = true)
  /\ (forall a b, NoDup (dict_keys (properties a)) ->
                  NoDup (dict_keys (properties b)) ->
                  Node_eq a b = Node_eq b a)
  /\ (forall (i j : Z) (l m : string), i <> j -> l <> m ->
        Node_eq (mkNode (Some i) None (Some l) []) (mkNode (Some i) None (Some m) []) = true
        /\ Node_eq (mkNode (Some i) None (Some m) []) (mkNode (Some j) None (Some m) []) = true
        /\ Node_eq (mkNode (Some i) None (Some l) []) (mkNode (Some j) None (Some m) []) = false).
Proof.
  split; [| split].
  - intros a Ha. unfold Node_eq.
    destruct (same_remote_id (id a) (id a)); [reflexivity |].
    replace (opt_str_ne (label a) (label a)) with false
      by (symmetry; now apply opt_str_ne_false).
    rewrite Nat.eqb_refl. cbn [negb].
    replace (dict_eq (properties a) (properties a)) with true; [reflexivity |].
    symmetry. apply (dict_eq_props_match _ _ Ha Ha), props_match_refl.
  - intros a b Ha Hb. unfold Node_eq.
    rewrite (same_remote_id_sym (id b)), (opt_str_ne_sym (label b)),
      (Nat.eqb_sym (List.length (properties b))), (dict_eq_sym _ _ Hb Ha).
    reflexivity.
  - intros i j l m Hij Hlm. unfold Node_eq. cbn [id label properties same_remote_id].
    rewrite Z.eqb_refl. apply Z.eqb_neq in Hij. rewrite Hij.
    cbn [opt_str_ne]. rewrite String.eqb_refl. apply String.eqb_neq in Hlm. rewrite Hlm.
    repeat split.
Qed.

(** X7: [Node.__str__] is the bracket, the alias and the label around the text
    that [Node.toString] gives for the same node, and raises what it
    raises. *)
Theorem Node_str_wraps_toString (n : Node) :
  Node_str n =
    rbind (Node_toString n)
      (fun block =>
         ok ("(" ++ (if truthy (alias n) then text_or_empty (alias n) else "")
                 ++ (if truthy (label n) then ":" ++ text_or_empty (label n) else "")
                 ++ block ++ ")")).
Proof.
  rewrite Node_str_shape. unfold Node_toString.
  destruct (properties n); reflexivity.
Qed.

(* ================================================================= *)
(** ** query, the parameter header, merge and call_procedure *)

Lemma last_of_nonempty (q : string) : q <> "" -> exists c, PyStr.last q = Some c.
Proof.
  induction q as [| a q IH]; [congruence |]. intros _.
  destruct q as [| b q]; [now exists a |].
  rewrite last_cons_nonempty by discriminate. apply IH. discriminate.
Qed.

Lemma query_text (q : string) (s : Env) : q <> "" ->
  query q None s = send_one s (query_command (self s) q).
Proof.
  intros Hq. unfold query. rewrite bind_ret.
  destruct (last_of_nonempty q Hq) as [c Hc]. rewrite Hc, bind_lift_ok.
  rewrite bind_get_self. unfold query_command, strip_comma. rewrite Hc.
  unfold PyStr.is_char, bind, execute, send_one, lift.
  destruct (execute_command (redis_con s) _) as [c' [e | reply]]; reflexivity.
Qed.

Lemma send_one_wire (s : Env) (cmd : list string) :
  self (fst (send_one s cmd)) = self s
  /\ wire (fst (send_one s cmd)) = (wire s ++ [cmd])%list
  /\ logged (fst (send_one s cmd)) = logged s.
Proof.
  unfold send_one.
  destruct (execute_command (redis_con s) cmd) as [c [e | reply]]; repeat split.
Qed.

(** X8: [query] without parameters: the empty text raises [IndexError] before
    anything is handed to the connection; any other text is handed over as
    exactly one [GRAPH.QUERY] command, without its last character when that
    is a comma (one comma only: a text ending in two keeps one), and the
    Graph object is not changed. *)
Theorem query_hands_over_one_command (s : Env) :
  query "" None s = (s, raise IndexError)
  /\ (forall q, q <> "" ->
        query q None s = send_one s (query_command (self s) q)
        /\ self (fst (query q None s)) = self s
        /\ wire (fst (query q None s))
           = (wire s ++ [["GRAPH.QUERY"; name (self s); strip_comma q; "--compact"]])%list)
  /\ (forall t, strip_comma (t ++ ",") = t)
  /\ (forall t, t <> "" -> PyStr.is_char PyStr.comma (PyStr.last t) = false ->
        strip_comma t = t).
Proof.
  split; [reflexivity |]. split; [| split].
  - intros q Hq. rewrite (query_text q s Hq).
    destruct (send_one_wire s (query_command (self s) q)) as [H1 [H2 _]].
    repeat split; assumption.
  - intros t. unfold strip_comma. rewrite last_app_single.
    cbn [PyStr.is_char]. rewrite Ascii.eqb_refl. apply drop_last_app_single.
  - intros t _ H. unfold strip_comma. now rewrite H.
Qed.

Lemma build_params_loop_text (items : dict value) (header : string) :
  build_params_loop items header = ok (header ++ params_text items).
Proof.
  revert header. induction items as [| [k v] items IH]; intros header.
  - simpl. now rewrite append_empty_r.
  - cbn [build_params_loop params_text].
    destruct v; cbn [rbind quote_string ok]; rewrite IH;
      unfold param_entry; cbn [fst snd py_str];
      now rewrite !append_assoc.
Qed.

(** X9: [build_params_header] never raises: the header is [CYPHER ] followed, for
    each parameter in order, by its name, [=], its value and a space, where
    a text value is quoted by the formatter, [None] is written [null], and
    any other value, bytes included, is written as [str] gives it.  A query
    with parameters is therefore never empty: it is handed over as one
    command that starts with the header. *)
Theorem build_params_header_never_raises (params : dict value) :
  build_params_header params = ok ("CYPHER " ++ params_text params)
  /\ (forall (k : string) (v : value) (rest : dict value),
        params_text ((k, v) :: rest)
        = k ++ "=" ++ match v with
                      | VStr s => quote_text s
                      | VNone => "null"
                      | VBool true => "True"
                      | VBool false => "False"
                      | VInt z => str_of_int z
                      | VBytes b => bytes_repr b
                      end ++ " " ++ params_text rest)
  /\ (forall q s,
        query q (Some params) s
        = send_one s (query_command (self s) (("CYPHER " ++ params_text params) ++ q))).
Proof.
  assert (E : build_params_header params = ok ("CYPHER " ++ params_text params))
    by apply build_params_loop_text.
  split; [exact E |]. split.
  - intros k v rest. cbn [params_text]. unfold param_entry. cbn [fst snd].
    destruct v as [| [] | | |]; cbn [py_str]; now rewrite !append_assoc.
  - intros q s.
    rewrite <- (query_text (("CYPHER " ++ params_text params) ++ q) s) by discriminate.
    unfold query. rewrite E. reflexivity.
Qed.

Lemma keeps_self_lift_logged {A} (w : list string * result A) :
  keeps_self (lift_logged w).
Proof. intros s s' r [= <- _]. reflexivity. Qed.

Lemma keeps_self_call_procedure (procedure : string) (args : list string)
  (y : option (list string)) : keeps_self (call_procedure procedure args y).
Proof.
  unfold call_procedure.
  apply keeps_self_bind; [auto with keeps | intros ?; apply keeps_self_query].
Qed.

Lemma quote_text_args (args : list string) :
  rmap (fun arg => rbind (quote_string (VStr arg)) (fun v => ok (py_str v))) args
  = ok (map quote_text args).
Proof.
  induction args as [| a args IH]; [reflexivity |].
  cbn [rmap map]. rewrite IH. reflexivity.
Qed.

(** X10: [call_procedure] with text arguments never raises before it sends: it
    hands over the one command [CALL name(args)], each argument quoted by
    the formatter and the arguments joined by commas, followed by
    [ YIELD names] when [y] is a non-empty list, and it does not change the
    Graph object. *)
Theorem call_procedure_hands_over_call (procedure : string) (args : list string)
  (y : option (list string)) (s : Env) :
  call_procedure procedure args y s
  = send_one s
      (query_command (self s)
         ("CALL " ++ procedure ++ "(" ++ PyStr.join "," (map quote_text args) ++ ")"
            ++ match y with
               | Some ((_ :: _) as names) => " YIELD " ++ PyStr.join "," names
               | _ => ""
               end))
  /\ self (fst (call_procedure procedure args y s)) = self s.
Proof.
  assert (E : call_procedure procedure args y s
  = send_one s
      (query_command (self s)
         ("CALL " ++ procedure ++ "(" ++ PyStr.join "," (map quote_text args) ++ ")"
            ++ match y with
               | Some ((_ :: _) as names) => " YIELD " ++ PyStr.join "," names
               | _ => ""
               end))).
  { unfold call_procedure. rewrite quote_text_args, bind_lift_ok. cbv zeta.
    rewrite <- query_text by discriminate.
    destruct y as [[| n names] |]; rewrite ?append_empty_r;
      repeat (rewrite ?append_assoc; cbn [append]); reflexivity. }
  split; [exact E |]. rewrite E. apply send_one_wire.
Qed.

(** X11: [merge] renders the pattern and hands over the one command
    [MERGE pattern]; nothing is registered locally: the Graph object, its
    node table and pending collections included, is as before, also when the
    connection raises. *)
Theorem merge_is_not_mirrored {A} (str : A -> result string) (pattern : A)
  (text : string) (s : Env) :
  str pattern = ok text ->
  merge str pattern s = send_one s (query_command (self s) ("MERGE " ++ text))
  /\ self (fst (merge str pattern s)) = self s
  /\ wire (fst (merge str pattern s))
     = (wire s ++ [["GRAPH.QUERY"; name (self s); strip_comma ("MERGE " ++ text);
                    "--compact"]])%list.
Proof.
  intros Hstr.
  assert (E : merge str pattern s
              = send_one s (query_command (self s) ("MERGE " ++ text))).
  { unfold merge. rewrite Hstr, bind_lift_ok. apply query_text. discriminate. }
  split; [exact E |]. rewrite E.
  destruct (send_one_wire s (query_command (self s) ("MERGE " ++ text))) as [H1 [H2 _]].
  split; assumption.
Qed.

(* ================================================================= *)
(** ** The flush at the edges of its flush rate, and after itself *)

(** X12: With a flush rate of zero and a first pending node that renders, the
    flush raises [ZeroDivisionError] at that node: nothing is handed to the
    connection and nothing changes, the pending nodes included. *)
Theorem zero_flush_rate_raises_before_sending (s : Env) (k : string) (n : Node)
  (rest : dict Node) (f : string) :
  flush_rate (self s) = 0 ->
  _nodes_to_commit (self s) = (k, n) :: rest ->
  Node_str n = ok f ->
  _commit_nodes s = (s, raise ZeroDivisionError)
  /\ commit s = (s, raise ZeroDivisionError).
Proof.
  intros Hr Hp Hf.
  assert (E : _commit_nodes s = (s, raise ZeroDivisionError)).
  { unfold _commit_nodes. rewrite bind_get_self, Hp.
    unfold _commit_list. cbn [dict_values map snd List.length Nat.eqb commit_loop].
    rewrite !bind_assoc_at, Hf, bind_lift_ok. cbv zeta.
    rewrite !bind_assoc_at, bind_get_self, Hr. reflexivity. }
  split; [exact E |]. unfold commit, bind. now rewrite E.
Qed.

Lemma commit_loop_negative {A} (str : A -> result string) (g : Graph) :
  flush_rate g < 0 ->
  forall (l : list A) (frags cur : list string) (i : Z) (s : Env),
    self s = g ->
    rmap str l = ok frags ->
    bind (commit_loop str l i (buffer cur)) flush_rest s
    = flush_rest (buffer (cur ++ frags)%list) s.
Proof.
  intros Hr. induction l as [| item l IH]; intros frags cur i s Hs Hl.
  - injection Hl as <-. now rewrite app_nil_r.
  - cbn [rmap] in Hl. unfold rbind in Hl.
    destruct (str item) as [e | f] eqn:Hitem; [discriminate |].
    destruct (rmap str l) as [e | frags'] eqn:Hrest; [discriminate |].
    injection Hl as <-.
    cbn [commit_loop]. rewrite bind_assoc_at, Hitem, bind_lift_ok. cbv zeta.
    rewrite buffer_snoc, bind_assoc_at, bind_get_self, Hs.
    unfold py_mod. replace (flush_rate g =? 0) with false by (symmetry; apply Z.eqb_neq; lia).
    rewrite bind_assoc_at, bind_lift_ok.
    replace (i mod flush_rate g =? flush_rate g - 1) with false.
    + rewrite (IH frags' (cur ++ [f])%list (i + 1) s Hs eq_refl).
      now rewrite <- app_assoc.
    + symmetry. apply Z.eqb_neq. pose proof (Z.mod_neg_bound i (flush_rate g) Hr). lia.
Qed.

(** X13: With a negative flush rate the buffer is never sent inside the loop:
    pending nodes that all render go out in one single command, whatever
    their number, and the pending nodes are cleared when it is accepted. *)
Theorem negative_flush_rate_sends_one_command (s : Env) (frags : list string) :
  flush_rate (self s) < 0 ->
  _nodes_to_commit (self s) <> [] ->
  rmap Node_str (dict_values (_nodes_to_commit (self s))) = ok frags ->
  _commit_nodes s =
    match send_one s (create_command (name (self s)) frags) with
    | (s', inl e) => (s', inl e)
    | (s', inr _) =>
        ({| self := set_nodes_to_commit [] (self s'); redis_con := redis_con s';
            wire := wire s'; logged := logged s' |}, ok tt)
    end
  /\ wire (fst (_commit_nodes s))
     = (wire s ++ [create_command (name (self s)) frags])%list.
Proof.
  intros Hr Hne Hfrags.
  assert (Hf : frags <> []).
  { intros ->. apply rmap_length in Hfrags. unfold dict_values in Hfrags.
    rewrite length_map in Hfrags. destruct (_nodes_to_commit (self s)); [congruence |].
    discriminate. }
  assert (E : _commit_nodes s =
    match send_one s (create_command (name (self s)) frags) with
    | (s', inl e) => (s', inl e)
    | (s', inr _) =>
        ({| self := set_nodes_to_commit [] (self s'); redis_con := redis_con s';
            wire := wire s'; logged := logged s' |}, ok tt)
    end).
  { unfold _commit_nodes. rewrite bind_get_self. unfold bind at 1.
    rewrite commit_list_unfold.
    destruct (dict_values (_nodes_to_commit (self s))) as [| x l] eqn:El.
    - cbn in Hfrags. injection Hfrags as <-. congruence.
    - rewrite (commit_loop_negative _ (self s) Hr (x :: l) frags [] 0 s eq_refl Hfrags).
      cbn [app]. rewrite flush_rest_buffer by exact Hf.
      destruct (send_one s _) as [s' [e | qr]]; reflexivity. }
  split; [exact E |]. rewrite E.
  destruct (send_one_wire s (create_command (name (self s)) frags)) as [_ [H _]].
  destruct (send_one s _) as [s' [e | qr]]; exact H.
Qed.

Lemma commit_nothing_pending (s : Env) :
  _nodes_to_commit (self s) = [] -> _edges_to_commit (self s) = [] ->
  commit s = (s, ok tt).
Proof.
  destruct s as [g c w lg]. cbn [self]. destruct g. cbn.
  intros -> ->. reflexivity.
Qed.

(** X14: A [commit] that returned has emptied both pending collections and left
    the node table and the edge list as they were, so a second [commit]
    right after it hands nothing to the connection and changes nothing. *)
Theorem commit_after_commit_sends_nothing (s s1 : Env) (u : unit) :
  commit s = (s1, inr u) ->
  nodes (self s1) = nodes (self s)
  /\ edges (self s1) = edges (self s)
  /\ _nodes_to_commit (self s1) = []
  /\ _edges_to_commit (self s1) = []
  /\ commit s1 = (s1, ok tt).
Proof.
  unfold commit, bind at 1.
  destruct (_commit_nodes s) as [s0 [e | u0]] eqn:E0; [discriminate |].
  intros E1. apply flush_cases in E0, E1. cbn in E0, E1.
  assert (Hn : _nodes_to_commit (self s1) = []) by now rewrite E1, E0.
  assert (He : _edges_to_commit (self s1) = []) by now rewrite E1.
  repeat split; try assumption.
  - now rewrite E1, E0.
  - now rewrite E1, E0.
  - now apply commit_nothing_pending.
Qed.

(** X15: After [delete], whether the connection accepted it or raised, nothing is
    pending: a [commit] hands nothing to the connection. *)
Theorem commit_after_delete_sends_nothing (s : Env) :
  commit (fst (delete s)) = (fst (delete s), ok tt)
  /\ wire (fst (delete s)) = (wire s ++ [["GRAPH.DELETE"; name (self s)]])%list.
Proof.
  assert (E : self (fst (delete s)) = _initialize (self s)
              /\ wire (fst (delete s)) = (wire s ++ [["GRAPH.DELETE"; name (self s)]])%list).
  { unfold delete, bind, modify_self, get_self, execute. cbn.
    destruct (execute_command (redis_con s) _) as [c r]. now split. }
  destruct E as [E W]. split; [| exact W].
  apply commit_nothing_pending; now rewrite E.
Qed.

(* ================================================================= *)
(** ** recreate_in_database *)

Lemma commit_list_accepted {A} (str : A -> result string) (l : list A)
  (frags : list string) (rn : nat) (s : Env) :
  (0 < rn)%nat -> flush_rate (self s) = Z.of_nat rn ->
  rmap str l = ok frags ->
  (forall c cmd, exists c' reply, execute_command c cmd = (c', ok reply)) ->
  (forall g reply, exists qr, QueryResult_new g reply = ok qr) ->
  exists c,
    _commit_list str l s
    = ({| self := self s; redis_con := c;
          wire := (wire s ++ map (create_command (name (self s))) (chunks rn frags))%list;
          logged := logged s |}, ok tt).
Proof.
  intros Hrn Hr Hl Hx Hq.
  rewrite (commit_list_flush str l frags rn s Hrn Hr Hl). unfold flush_outcome.
  destruct (send_all_accepted (self s) Hx (Hq (self s))
              (map (create_command (name (self s))) (chunks rn frags))
              (redis_con s)) as [c ->].
  now exists c.
Qed.

(** X16: [recreate_in_database].  With the flag unset it logs one warning and
    does nothing else: no command, no change to the object.  With the flag
    set, a positive flush rate, nodes and edges that render and a connection
    and decoder that accept, it hands over all nodes of the node table and
    then all edges of the edge list in batches, pending or not, empties both
    pending collections and unsets the flag.  When it raises, the object is
    as before: the flag is still set and nothing pending was cleared. *)
Theorem recreate_in_database_needs_its_flag (s : Env) :
  (recreate_flag (self s) = false ->
   recreate_in_database s
   = ({| self := self s; redis_con := redis_con s; wire := wire s;
         logged := (logged s ++
                    [("[" ++ name (self s) ++ "] " ++
                      "Please set the `recreate_flag` before calling `recreate_in_database`")%string])%list |},
      ok tt))
  /\ (forall (rn : nat) (frags efrags : list string),
        recreate_flag (self s) = true ->
        (0 < rn)%nat -> flush_rate (self s) = Z.of_nat rn ->
        rmap Node_str (dict_values (nodes (self s))) = ok frags ->
        rmap Edge_str (edges (self s)) = ok efrags ->
        (forall c cmd, exists c' reply, execute_command c cmd = (c', ok reply)) ->
        (forall g reply, exists qr, QueryResult_new g reply = ok qr) ->
        exists c,
          recreate_in_database s
          = ({| self := set_recreate_flag false
                          (set_edges_to_commit [] (set_nodes_to_commit [] (self s)));
                redis_con := c;
                wire := ((wire s ++ map (create_command (name (self s))) (chunks rn frags))
                           ++ map (create_command (name (self s))) (chunks rn efrags))%list;
                logged := logged s |}, ok tt))
  /\ (forall s' e, recreate_in_database s = (s', inl e) -> self s' = self s).
Proof.
  split; [| split].
  - intros Hflag. unfold recreate_in_database. rewrite bind_get_self, Hflag. reflexivity.
  - intros rn frags efrags Hflag Hrn Hr Hfrags Hefrags Hx Hq.
    unfold recreate_in_database. rewrite bind_get_self, Hflag. cbn [Bool.eqb negb].
    destruct (commit_list_accepted Node_str _ frags rn s Hrn Hr Hfrags Hx Hq) as [c1 E1].
    unfold bind at 1. rewrite E1. rewrite bind_get_self. cbn [self].
    destruct (commit_list_accepted Edge_str (edges (self s)) efrags rn
                {| self := self s; redis_con := c1;
                   wire := (wire s ++ map (create_command (name (self s)))
                                        (chunks rn frags))%list;
                   logged := logged s |} Hrn Hr Hefrags Hx Hq) as [c2 E2].
    unfold bind at 1. rewrite E2. exists c2. reflexivity.
  - intros s' e. unfold recreate_in_database. rewrite bind_get_self.
    destruct (recreate_flag (self s)); cbn [Bool.eqb negb]; [| discriminate].
    unfold bind at 1.
    destruct (_commit_list Node_str (dict_values (nodes (self s))) s)
      as [s1 [e1 | u1]] eqn:E1.
    + intros [= <- _]. exact (keeps_self_commit_list _ _ _ _ _ E1).
    + apply keeps_self_commit_list in E1. rewrite bind_get_self. unfold bind at 1.
      destruct (_commit_list Edge_str (edges (self s1)) s1) as [s2 [e2 | u2]] eqn:E2.
      * intros [= <- _]. apply keeps_self_commit_list in E2. congruence.
      * discriminate.
Qed.

(* ================================================================= *)
(** ** add_edges *)

Lemma with_edges_nil (s : Env) : with_edges [] s = s.
Proof.
  destruct s as [g c w lg]. destruct g. unfold with_edges. cbn.
  now rewrite !app_nil_r.
Qed.

Lemma with_edges_cons (e : Edge) (l : list Edge) (s : Env) :
  with_edges l (with_edges [e] s) = with_edges (e :: l) s.
Proof. unfold with_edges. cbn. now rewrite <- !app_assoc. Qed.

Lemma add_edge_outcome (e : Edge) (validate_nodes : bool) (s : Env) :
  (validate_nodes = false \/ endpoints_registered (self s) e ->
   add_edge e validate_nodes s = (with_edges [e] s, ok tt))
  /\ (validate_nodes = true -> ~ endpoints_registered (self s) e ->
      add_edge e validate_nodes s = (s, raise AssertionError)).
Proof.
  unfold endpoints_registered. rewrite <- !node_exists_registered.
  unfold add_edge, bind, get_self, lift, ok. split.
  - intros [-> | [Hs Hd]]; [reflexivity |].
    destruct validate_nodes; [| reflexivity]. cbn beta iota. now rewrite Hs, Hd.
  - intros -> H. cbn beta iota.
    destruct (node_exists (self s) (alias (src_node e)));
      destruct (node_exists (self s) (alias (dest_node e))); try reflexivity.
    exfalso. now apply H.
Qed.

(** X17: [add_edges] adds the edges one after the other.  Without validation all
    of them are appended, in order, to the edge list and to the pending
    edges.  With validation the same holds when both ends of every edge are
    registered; otherwise the call raises [AssertionError] at the first edge
    with an unregistered end, the edges before it having been added and none
    after it.  Nothing is handed to the connection. *)
Theorem add_edges_stops_at_first_unregistered (s : Env) :
  (forall l, add_edges l false s = (with_edges l s, ok tt))
  /\ (forall good,
        Forall (endpoints_registered (self s)) good ->
        add_edges good true s = (with_edges good s, ok tt)
        /\ forall bad rest,
             ~ endpoints_registered (self s) bad ->
             add_edges (good ++ bad :: rest)%list true s
             = (with_edges good s, raise AssertionError))
  /\ (forall l,
        edges (self (with_edges l s)) = (edges (self s) ++ l)%list
        /\ _edges_to_commit (self (with_edges l s)) = (_edges_to_commit (self s) ++ l)%list
        /\ nodes (self (with_edges l s)) = nodes (self s)
        /\ wire (with_edges l s) = wire s).
Proof.
  split; [| split].
  - intros l. revert s. induction l as [| e l IH]; intros s.
    + now rewrite with_edges_nil.
    + cbn [add_edges]. unfold bind.
      rewrite (proj1 (add_edge_outcome e false s)) by now left.
      rewrite IH. now rewrite with_edges_cons.
  - intros good. revert s. induction good as [| e good IH]; intros s F.
    + split; [now rewrite with_edges_nil |].
      intros bad rest Hbad. cbn [app add_edges]. unfold bind.
      rewrite (proj2 (add_edge_outcome bad true s)) by auto.
      now rewrite with_edges_nil.
    + inversion F as [| ? ? He F']; subst.
      assert (F1 : Forall (endpoints_registered (self (with_edges [e] s))) good)
        by exact F'.
      destruct (IH _ F1) as [Hok Hbad].
      split.
      * cbn [add_edges]. unfold bind.
        rewrite (proj1 (add_edge_outcome e true s)) by now right.
        rewrite Hok. now rewrite with_edges_cons.
      * intros bad rest Hb. cbn [app add_edges]. unfold bind.
        rewrite (proj1 (add_edge_outcome e true s)) by now right.
        rewrite (Hbad bad rest Hb). now rewrite with_edges_cons.
  - intros l. repeat split.
Qed.

(* ================================================================= *)
(** ** add_node and add_nodes *)

Lemma validate_keys_no_log (keys : list string) : fst (validate_keys keys) = [].
Proof.
  destruct (validate_keys_outcome keys) as [[-> _] | [pre [s [post [_ [_ [_ ->]]]]]]];
    reflexivity.
Qed.

Lemma Node_validate_no_log (n : Node) : fst (Node_validate n) = [].
Proof.
  rewrite Node_validate_unfold. cbv zeta.
  destruct (alias n) as [a |]; [destruct (re_match VALID_CYPHER_IDENIFIER a) |];
    try reflexivity;
    (destruct (label n) as [l |]; [destruct (re_match VALID_CYPHER_IDENIFIER l) |]);
    try reflexivity; apply validate_keys_no_log.
Qed.

Lemma random_string_ten (rand : nat -> nat) :
  exists t, random_string rand 10 = ok t
            /\ String.length t = 10%nat /\ all_chars is_lower t = true.
Proof.
  destruct (rmap_all (fun x => choice ascii_lowercase (rand x))
              (fun c => is_lower c = true) (seq 0 (Z.to_nat 10))
              (fun x => choice_lowercase (rand x))) as [cs [E [L F]]].
  exists (string_of_list_ascii cs). unfold random_string. rewrite E.
  rewrite length_seq in L. repeat split.
  - now rewrite string_of_list_length.
  - now apply string_of_list_all.
Qed.

Lemma chosen_alias_ok (rand : nat -> nat) (node : Node) :
  exists a, chosen_alias rand node = ok a
            /\ (forall x, alias node = Some x -> a = x)
            /\ (alias node = None ->
                String.length a = 10%nat /\ all_chars is_lower a = true).
Proof.
  unfold chosen_alias. destruct (alias node) as [x |].
  - exists x. repeat split; congruence.
  - destruct (random_string_ten rand) as [t [E [L C]]]. exists t.
    repeat split; try assumption. discriminate.
Qed.

Lemma lift_logged_quiet {A} (w : list string * result A) (s : Env) :
  fst w = [] -> lift_logged w s = (s, snd w).
Proof.
  intros H. unfold lift_logged. rewrite H, app_nil_r. now destruct s.
Qed.

Lemma add_node_body_outcome (rand : nat -> nat) (node : Node) (validate : bool)
  (s : Env) (a : string) :
  chosen_alias rand node = ok a ->
  add_node_body rand node validate s =
    if validate then
      match snd (Node_validate (set_alias (Some a) node)) with
      | inl e => (s, inl e)
      | inr _ => (with_node a (set_alias (Some a) node) s, ok a)
      end
    else (with_node a (set_alias (Some a) node) s, ok a).
Proof.
  intros Ha. unfold add_node_body.
  assert (E : (match alias node with
               | Some a0 => ret a0
               | None => lift (random_string rand 10)
               end) s = (s, ok a)).
  { unfold chosen_alias in Ha. destruct (alias node); [injection Ha as -> |];
      unfold ret, lift; congruence. }
  unfold bind at 1. rewrite E. unfold ok at 1. cbv zeta. cbn beta iota.
  destruct validate; [| reflexivity].
  unfold bind at 1. rewrite lift_logged_quiet by apply Node_validate_no_log.
  destruct (snd (Node_validate (set_alias (Some a) node))) as [e | u]; reflexivity.
Qed.

Lemma dict_get_set_same {V} (k : string) (v : V) (d : dict V) :
  dict_get k (dict_set k v d) = Some v.
Proof.
  induction d as [| [k' w] d IH]; simpl.
  - now rewrite String.eqb_refl.
  - destruct (String.eqb k k') eqn:E; simpl; rewrite ?String.eqb_refl, ?E; auto.
Qed.

Lemma dict_get_set_other {V} (k k0 : string) (v : V) (d : dict V) :
  k0 <> k -> dict_get k0 (dict_set k v d) = dict_get k0 d.
Proof.
  intros N. induction d as [| [k' w] d IH]; simpl.
  - apply String.eqb_neq in N. now rewrite N.
  - destruct (String.eqb_spec k k') as [<- | N'].
    + simpl. apply String.eqb_neq in N. now rewrite N.
    + simpl. now rewrite IH.
Qed.

Lemma dict_keys_set {V} (k : string) (v : V) (d : dict V) :
  dict_keys (dict_set k v d)
  = if in_dec string_dec k (dict_keys d) then dict_keys d
    else (dict_keys d ++ [k])%list.
Proof.
  unfold dict_keys. induction d as [| [k' w] d IH]; [reflexivity |].
  cbn [dict_set]. destruct (String.eqb_spec k k') as [<- | N].
  - cbn [map fst]. destruct (in_dec string_dec k (k :: map fst d)) as [_ | X];
      [reflexivity | exfalso; apply X; now left].
  - cbn [map fst]. rewrite IH.
    destruct (in_dec string_dec k (map fst d)) as [I | I];
      destruct (in_dec string_dec k (k' :: map fst d)) as [J | J];
      try reflexivity.
    + exfalso. apply J. now right.
    + exfalso. destruct J as [J | J]; [congruence | contradiction].
Qed.

Lemma dict_set_nodup {V} (k : string) (v : V) (d : dict V) :
  NoDup (dict_keys d) -> NoDup (dict_keys (dict_set k v d)).
Proof.
  intros H. rewrite dict_keys_set.
  destruct (in_dec string_dec k (dict_keys d)) as [I | I]; [exact H |].
  apply NoDup_app; [exact H | repeat constructor; intros [] |].
  intros x Hx [<- | []]. contradiction.
Qed.

Lemma registered_with_node (a : string) (stored : Node) (s : Env)
  (x : option string) :
  registered (self (with_node a stored s)) x <-> x = Some a \/ registered (self s) x.
Proof.
  unfold registered. cbn [with_node self set_nodes_to_commit set_nodes nodes].
  rewrite dict_keys_set. split.
  - intros [k [-> I]].
    destruct (in_dec string_dec a (dict_keys (nodes (self s)))) as [J | J].
    + right. now exists k.
    + apply in_app_or in I as [I | [<- | []]]; [right; now exists k | now left].
  - intros [-> | [k [-> I]]].
    + exists a. split; [reflexivity |].
      destruct (in_dec string_dec a (dict_keys (nodes (self s)))) as [J | J];
        [exact J | apply in_or_app; right; now left].
    + exists k. split; [reflexivity |].
      destruct (in_dec string_dec a (dict_keys (nodes (self s)))) as [J | J];
        [exact I | apply in_or_app; now left].
Qed.


Lemma add_node_body_result (rand : nat -> nat) (node : Node) (validate : bool)
  (s s' : Env) (r : result string) :
  add_node_body rand node validate s = (s', r) ->
  match r with
  | inl _ => s' = s
  | inr a => s' = with_node a (set_alias (Some a) node) s
  end.
Proof.
  destruct (chosen_alias_ok rand node) as [a [Ha _]].
  rewrite (add_node_body_outcome rand node validate s a Ha).
  destruct validate;
    [destruct (snd (Node_validate (set_alias (Some a) node))) |];
    intros [= <- <-]; reflexivity.
Qed.

Lemma add_node_body_keeps (rand : nat -> nat) (node : Node) (validate : bool)
  (s s' : Env) (r : result string) :
  add_node_body rand node validate s = (s', r) ->
  wire s' = wire s /\ edges (self s') = edges (self s)
  /\ (forall x, registered (self s) x -> registered (self s') x).
Proof.
  intros H. apply add_node_body_result in H. destruct r as [e | a]; subst s'.
  - repeat split. auto.
  - repeat split. intros x Hx. apply registered_with_node. now right.
Qed.


(** X20: An edge can be added, with validation, once both its ends were added:
    after [add_node] returned [a] and then [b], [add_edge] of an edge from
    alias [a] to alias [b] returns; while [b] is not yet registered it
    raises [AssertionError]. *)
Theorem add_edge_after_both_nodes (r1 r2 : nat -> nat) (n1 n2 : Node)
  (v1 v2 : bool) (e : Edge) (a b : string) (s s1 s2 : Env) :
  add_node_body r1 n1 v1 s = (s1, inr a) ->
  add_node_body r2 n2 v2 s1 = (s2, inr b) ->
  alias (src_node e) = Some a ->
  alias (dest_node e) = Some b ->
  add_edge e true s2 = (with_edges [e] s2, ok tt)
  /\ (~ registered (self s1) (Some b) ->
      add_edge e true s1 = (s1, raise AssertionError)).
Proof.
  intros H1 H2 Ha Hb.
  pose proof (add_node_body_keeps _ _ _ _ _ _ H2) as [_ [_ Hkeep]].
  apply add_node_body_result in H1, H2. cbn in H1, H2.
  split.
  - apply (proj1 (add_edge_outcome e true s2)). right. split.
    + rewrite Ha. apply Hkeep. rewrite H1. apply registered_with_node. now left.
    + rewrite Hb, H2. apply registered_with_node. now left.
  - intros Hnb. apply (proj2 (add_edge_outcome e true s1)); [reflexivity |].
    intros [_ Hd]. rewrite Hb in Hd. contradiction.
Qed.

Lemma add_nodes_from_outcome (rands : nat -> nat -> nat) (p : option string)
  (validate : bool) (l : list Node) :
  forall (i : nat) (m : M (list string)) (s s' : Env) (r : result (list string)),
    add_nodes_from rands i l p validate = Some m ->
    m s = (s', r) ->
    wire s' = wire s /\ edges (self s') = edges (self s)
    /\ (forall x, registered (self s) x -> registered (self s') x)
    /\ match r with
       | inl _ => True
       | inr aliases =>
           List.length aliases = List.length l
           /\ Forall (fun a => registered (self s') (Some a)) aliases
       end.
Proof.
  induction l as [| node l IH]; intros i m s s' r Hm Hr.
  - injection Hm as <-. injection Hr as <- <-. repeat split; auto.
  - cbn [add_nodes_from] in Hm.
    unfold add_node in Hm.
    destruct (alias_from_property p node) as [node1 |]; [| discriminate].
    destruct (add_nodes_from rands (S i) l p validate) as [others |] eqn:Ho;
      [| discriminate].
    injection Hm as <-. unfold bind in Hr.
    destruct (add_node_body (rands i) node1 validate s) as [s1 [e | a]] eqn:E1.
    + injection Hr as <- <-.
      destruct (add_node_body_keeps _ _ _ _ _ _ E1) as [W [Ed K]]. repeat split; auto.
    + destruct (add_node_body_keeps _ _ _ _ _ _ E1) as [W [Ed K]].
      apply add_node_body_result in E1. cbn in E1.
      destruct (others s1) as [s2 [e | aliases]] eqn:E2;
        destruct (IH _ _ _ _ _ Ho E2) as [W2 [Ed2 [K2 R2]]];
        injection Hr as <- <-.
      * repeat split; try congruence. auto.
      * destruct R2 as [L F]. repeat split; try congruence; auto.
        -- simpl. now rewrite L.
        -- constructor; [| exact F]. apply K2. rewrite E1.
           apply registered_with_node. now left.
Qed.


(* ================================================================= *)
(** ** The cached lookups *)

Lemma py_index_raises_index_error {A} (l : list A) (idx : Z) (e : exn) :
  py_index l idx = inl e -> e = IndexError.
Proof.
  unfold py_index. cbv zeta.
  destruct ((0 <=? _) && _)%bool; [destruct (nth_error l _) |];
    unfold ok, raise; congruence.
Qed.

Lemma py_index_ends {A} (l : list A) (x : A) :
  py_index (l ++ [x])%list (-1) = ok x
  /\ py_index l (Z.of_nat (List.length l)) = raise IndexError
  /\ py_index l (- Z.of_nat (List.length l) - 1) = raise IndexError.
Proof.
  unfold py_index. cbv zeta. repeat split.
  - rewrite length_app. cbn [List.length Z.ltb Z.compare].
    replace (-1 + Z.of_nat (List.length l + 1)) with (Z.of_nat (List.length l)) by lia.
    replace (0 <=? Z.of_nat (List.length l)) with true by (symmetry; apply Z.leb_le; lia).
    replace (Z.of_nat (List.length l) <? Z.of_nat (List.length l + 1)) with true
      by (symmetry; apply Z.ltb_lt; lia).
    cbn [andb]. rewrite Nat2Z.id, nth_error_app2, Nat.sub_diag by lia. reflexivity.
  - replace (Z.of_nat (List.length l) <? 0) with false by (symmetry; apply Z.ltb_ge; lia).
    replace (Z.of_nat (List.length l) <? Z.of_nat (List.length l)) with false
      by (symmetry; apply Z.ltb_ge; lia).
    now rewrite andb_false_r.
  - replace (- Z.of_nat (List.length l) - 1 <? 0) with true by (symmetry; apply Z.ltb_lt; lia).
    replace (0 <=? - Z.of_nat (List.length l) - 1 + Z.of_nat (List.length l)) with false
      by (symmetry; apply Z.leb_gt; lia).
    reflexivity.
Qed.

Lemma py_index_first {A} (x : A) (row : list A) : py_index (x :: row) 0 = ok x.
Proof.
  unfold py_index. cbv zeta. cbn [Z.ltb Z.compare Z.leb].
  replace (0 <? Z.of_nat (List.length (x :: row))) with true
    by (symmetry; apply Z.ltb_lt; cbn [List.length]; lia).
  reflexivity.
Qed.

Lemma list_set_middle {A} (done : list A) (x v : A) (tl : list A) :
  list_set (List.length done) v (done ++ x :: tl)%list = (done ++ v :: tl)%list.
Proof. induction done as [| d done IH]; simpl; congruence. Qed.

Lemma cache_get_set (c : cache) (l : list value) (g : Graph) :
  cache_get c (cache_set c l g) = l.
Proof. destruct c; reflexivity. Qed.

Lemma cache_set_set (c : cache) (l l' : list value) (g : Graph) :
  cache_set c l (cache_set c l' g) = cache_set c l g.
Proof. destruct c; reflexivity. Qed.

Lemma unpack_rows (c : cache) (rows : list (list value)) :
  Forall (fun row => row <> []) rows ->
  forall (done : list value) (s : Env),
    cache_get c (self s) = (done ++ repeat VNone (List.length rows))%list ->
    unpack (cache_get c) (cache_set c) rows (List.length done) s
    = ({| self := cache_set c (done ++ first_cells rows)%list (self s);
          redis_con := redis_con s; wire := wire s; logged := logged s |}, ok tt).
Proof.
  induction 1 as [| row rows Hrow _ IH]; intros done s Hc.
  - cbn [unpack first_cells map]. cbn in Hc. rewrite <- Hc.
    destruct s as [g ? ? ?]. cbn. f_equal. f_equal. now destruct c, g.
  - destruct row as [| x row]; [congruence |].
    cbn [unpack]. rewrite py_index_first, bind_lift_ok.
    unfold bind at 1. unfold modify_self at 1. cbn beta iota.
    rewrite Hc. cbn [List.length repeat]. rewrite list_set_middle.
    replace (S (List.length done)) with (List.length (done ++ [x])%list)
      by (rewrite length_app; simpl; lia).
    rewrite IH.
    + cbn [self redis_con wire logged]. rewrite cache_set_set.
      unfold first_cells. cbn [map hd]. now rewrite <- app_assoc.
    + cbn [self]. rewrite cache_get_set. now rewrite <- app_assoc.
Qed.

Lemma cache_lookup_unfold (c : cache) (idx : Z) :
  cache_lookup c idx
  = cached_lookup (cache_get c) (cache_set c)
      (r <- call_procedure (cache_procedure c) [] None ;; ret (result_set r)) idx.
Proof. destruct c; reflexivity. Qed.

(** X22: [get_label], [get_relation] and [get_property].  An index the cached
    list answers, negative ones counting from the end, is answered from it:
    nothing is handed to the connection and nothing changes.  Any other index
    makes the lookup hand over the one catalog call of its list; when that
    raises, the exception propagates and the cached list is as before; when
    it returns rows that all have a first cell, the cached list is replaced
    by those first cells, and the lookup answers from the new list, or raises
    [IndexError] when the index is still out of range, the new list staying
    in place. *)
Theorem cached_lookup_refreshes_once (c : cache) (idx : Z) (s : Env) :
  (forall v, py_index (cache_get c (self s)) idx = ok v ->
             cache_lookup c idx s = (s, ok v))
  /\ (forall e, py_index (cache_get c (self s)) idx = inl e ->
        (forall s1 e1,
           send_one s (query_command (self s) ("CALL " ++ cache_procedure c ++ "()"))
           = (s1, inl e1) ->
           cache_lookup c idx s = (s1, inl e1)
           /\ self s1 = self s)
        /\ (forall s1 r,
              send_one s (query_command (self s) ("CALL " ++ cache_procedure c ++ "()"))
              = (s1, inr r) ->
              Forall (fun row => row <> []) (result_set r) ->
              cache_lookup c idx s
              = ({| self := cache_set c (first_cells (result_set r)) (self s);
                    redis_con := redis_con s1;
                    wire := (wire s ++ [query_command (self s)
                                          ("CALL " ++ cache_procedure c ++ "()")])%list;
                    logged := logged s |},
                 py_index (first_cells (result_set r)) idx)))
  /\ (forall (l : list value) (x : value),
        py_index (l ++ [x])%list (-1) = ok x
        /\ py_index l (Z.of_nat (List.length l)) = raise IndexError
        /\ py_index l (- Z.of_nat (List.length l) - 1) = raise IndexError).
Proof.
  rewrite cache_lookup_unfold. unfold cached_lookup. rewrite bind_get_self.
  split; [| split]; [| | apply py_index_ends].
  - intros v Hv. rewrite Hv. reflexivity.
  - intros e He. rewrite He. apply py_index_raises_index_error in He. subst e.
    assert (Hcall : forall s0,
              call_procedure (cache_procedure c) [] None s0
              = send_one s0 (query_command (self s0) ("CALL " ++ cache_procedure c ++ "()"))).
    { intros s0. unfold call_procedure. cbn [rmap]. rewrite bind_lift_ok. cbv zeta.
      rewrite <- query_text by discriminate. destruct c; reflexivity. }
    split.
    + intros s1 e1 Hsend. rewrite !bind_assoc_at. unfold bind at 1.
      rewrite Hcall, Hsend. split; [reflexivity |].
      exact (send_one_self _ _ _ _ Hsend).
    + intros s1 r Hsend Hrows. rewrite !bind_assoc_at. unfold bind at 1.
      rewrite Hcall, Hsend. rewrite bind_ret.
      pose proof (send_one_self _ _ _ _ Hsend) as Hself.
      destruct (send_one_wire s (query_command (self s)
                  ("CALL " ++ cache_procedure c ++ "()"))) as [_ [Hw Hl]].
      rewrite Hsend in Hw, Hl. cbn [fst] in Hw, Hl.
      unfold bind at 1. unfold modify_self at 1. cbn beta iota.
      unfold bind at 1.
      rewrite (unpack_rows c (result_set r) Hrows [] _)
        by (cbn [self]; now rewrite cache_get_set).
      cbn [self redis_con wire logged app]. rewrite cache_set_set, bind_get_self.
      cbn [self]. rewrite cache_get_set, Hself, Hw, Hl. reflexivity.
Qed.

(* ================================================================= *)
(** ** Adding and flushing *)

(** X23: Pending nodes are kept by alias: when a node is put under an alias that
    is already pending, the flush sends the later node only.  After two
    nodes were put under the same alias into a graph with nothing pending,
    the node flush hands over one command with the one fragment of the
    second node, and the node table holds the second node under the alias. *)
Theorem readded_alias_is_flushed_once (a : string) (n1 n2 : Node) (s : Env)
  (rn : nat) (f : string) :
  _nodes_to_commit (self s) = [] ->
  (0 < rn)%nat ->
  flush_rate (self s) = Z.of_nat rn ->
  Node_str n2 = ok f ->
  (forall c cmd, exists c' reply, execute_command c cmd = (c', ok reply)) ->
  (forall g reply, exists qr, QueryResult_new g reply = ok qr) ->
  _nodes_to_commit (self (with_node a n2 (with_node a n1 s))) = [(a, n2)]
  /\ dict_get a (nodes (self (with_node a n2 (with_node a n1 s)))) = Some n2
  /\ exists c,
       _commit_nodes (with_node a n2 (with_node a n1 s))
       = ({| self := set_nodes_to_commit []
                       (self (with_node a n2 (with_node a n1 s)));
             redis_con := c;
             wire := (wire s ++ [create_command (name (self s)) [f]])%list;
             logged := logged s |}, ok tt).
Proof.
  intros Hp Hrn Hr Hf Hx Hq.
  assert (P : _nodes_to_commit (self (with_node a n2 (with_node a n1 s))) = [(a, n2)]).
  { cbn [with_node self set_nodes_to_commit set_nodes _nodes_to_commit].
    rewrite Hp. cbn [dict_set]. now rewrite String.eqb_refl. }
  split; [exact P |]. split; [apply dict_get_set_same |].
  destruct (send_all_accepted (self (with_node a n2 (with_node a n1 s))) Hx
              (Hq (self (with_node a n2 (with_node a n1 s))))
              [create_command (name (self s)) [f]] (redis_con s)) as [c Hsend].
  exists c. unfold _commit_nodes. rewrite bind_get_self.
  assert (Hfrags : rmap Node_str
                     (dict_values (_nodes_to_commit
                        (self (with_node a n2 (with_node a n1 s))))) = ok [f]).
  { rewrite P. cbn [dict_values map snd rmap]. now rewrite Hf. }
  etransitivity;
    [exact (flush_then_clear Node_str _ (set_nodes_to_commit []) [f] rn
              (with_node a n2 (with_node a n1 s)) Hrn Hr Hfrags) |].
  rewrite chunks_short_run by (try discriminate; simpl; lia).
  unfold flush_outcome. cbn [map].
  change (name (self (with_node a n2 (with_node a n1 s)))) with (name (self s)).
  change (redis_con (with_node a n2 (with_node a n1 s))) with (redis_con s).
  rewrite Hsend. reflexivity.
Qed.
End Runtime.

Arguments mkEnv {Conn}.
Arguments self {Conn}.
Arguments redis_con {Conn}.
Arguments wire {Conn}.
Arguments logged {Conn}.
Arguments _commit_nodes bytes_decode bytes_repr {Conn Reply} execute_command
  {QueryResult} QueryResult_new.
Arguments _commit_edges bytes_decode bytes_repr Edge_str {Conn Reply}
  execute_command {QueryResult} QueryResult_new.
Arguments add_edge {Conn}.
Arguments delete {Conn Reply} execute_command.

(* ================================================================= *)
(** ** The statements at concrete graphs *)

(** C3 (as stated): [quote_string(None)] is not the text [null]. *)
Lemma quote_string_none_is_not_null_text :
  quote_string Fixture.decode_any VNone <> ok (VStr "null").
Proof. discriminate. Qed.

(** Two nodes without remote id, with different aliases and the same two
    properties written in a different order. *)
Lemma Node_eq_by_id_or_contents_witness :
  label (mkNode None (Some "x") (Some "L") [("k", VInt 1); ("m", VStr "v")])
  = label (mkNode None (Some "y") (Some "L") [("m", VStr "v"); ("k", VInt 1)])
  /\ props_match [("k", VInt 1); ("m", VStr "v")] [("m", VStr "v"); ("k", VInt 1)].
Proof.
  assert (Ha : NoDup (dict_keys [("k", VInt 1); ("m", VStr "v")])).
  { repeat constructor; simpl; intuition discriminate. }
  assert (Hb : NoDup (dict_keys [("m", VStr "v"); ("k", VInt 1)])).
  { repeat constructor; simpl; intuition discriminate. }
  apply (proj1 (proj1 (proj2
           (Node_eq_by_id_or_contents
              (mkNode None (Some "x") (Some "L") [("k", VInt 1); ("m", VStr "v")])
              (mkNode None (Some "y") (Some "L") [("m", VStr "v"); ("k", VInt 1)])
              Ha Hb)) eq_refl eq_refl)).
  reflexivity.
Defined.

(** An edge between two registered nodes is added. *)
Lemma add_edge_requires_registered_endpoints_witness :
  snd (add_edge (Fixture.link "n1" "n2") true
         (mkEnv (Fixture.graph_of 2 Fixture.five []) 0%nat [] [])) = ok tt
  /\ edges (self (fst (add_edge (Fixture.link "n1" "n2") true
         (mkEnv (Fixture.graph_of 2 Fixture.five []) 0%nat [] []))))
     = [Fixture.link "n1" "n2"].
Proof.
  assert (H1 : registered (Fixture.graph_of 2 Fixture.five []) (Some "n1")).
  { exists "n1". split; [reflexivity | simpl; auto]. }
  assert (H2 : registered (Fixture.graph_of 2 Fixture.five []) (Some "n2")).
  { exists "n2". split; [reflexivity | simpl; auto]. }
  destruct (proj2 (add_edge_requires_registered_endpoints nat
                     (Fixture.link "n1" "n2")
                     (mkEnv (Fixture.graph_of 2 Fixture.five []) 0%nat [] []))
              H1 H2) as [R [E _]].
  split; [exact R | exact E].
Defined.

(** A [None]-valued property next to [name] leaves the rendering as it is. *)
Lemma Node_str_omits_null_properties_witness :
  Node_str Fixture.decode_any Fixture.repr_plain
    (set_properties [("name", VStr "Bob"); ("age", VNone)] Fixture.bob)
  = ok ("(a:Person{name:" ++ dq ++ "Bob" ++ dq ++ "})").
Proof.
  refine (eq_trans
            (proj2 (proj2 (proj2 (Node_str_omits_null_properties
                                    Fixture.decode_any Fixture.repr_plain))
                      Fixture.bob [("name", VStr "Bob")] [] "age") _) _).
  - discriminate.
  - reflexivity.
Defined.

(** A node whose only property is [None]. *)
Lemma Node_str_all_null_keeps_braces_witness :
  Node_str Fixture.decode_any Fixture.repr_plain
    (mkNode None (Some "a") None [("x", VNone)]) = ok "(a{})"
  /\ Node_toString Fixture.decode_any Fixture.repr_plain
       (mkNode None (Some "a") None [("x", VNone)]) = ok "{}".
Proof.
  apply (Node_str_all_null_keeps_braces Fixture.decode_any Fixture.repr_plain
           (mkNode None (Some "a") None [("x", VNone)])).
  - discriminate.
  - intros kv [<- | []]. reflexivity.
Defined.

(** A connection that refuses [GRAPH.DELETE]. *)
Lemma delete_resets_before_remote_call_witness :
  snd (delete (Fixture.refuse_at 0)
         (mkEnv (Fixture.graph_of 2 Fixture.five [Fixture.link "n1" "n2"]) 0%nat [] []))
  = inl (ForeignError "ResponseError")
  /\ self (fst (delete (Fixture.refuse_at 0)
         (mkEnv (Fixture.graph_of 2 Fixture.five [Fixture.link "n1" "n2"]) 0%nat [] [])))
     = Graph_init "g" 2.
Proof.
  pose proof (delete_resets_before_remote_call nat unit (Fixture.refuse_at 0)
                (mkEnv (Fixture.graph_of 2 Fixture.five [Fixture.link "n1" "n2"])
                   0%nat [] [])) as H.
  split.
  - apply (proj2 (proj2 (proj2 (proj2 (proj2 (proj2 (proj2 (proj2 (proj2
             (proj2 (proj2 H)))))))))) 1%nat). reflexivity.
  - rewrite (proj1 (proj2 H)). reflexivity.
Defined.

(** Five pending nodes and a flush rate of two: three commands, of two, two
    and one fragments, and nothing pending afterwards. *)
Lemma commit_nodes_in_batches_witness :
  exists c' : nat,
    _commit_nodes Fixture.decode_any Fixture.repr_plain Fixture.accept Fixture.wrap
      (mkEnv (Fixture.graph_of 2 Fixture.five []) 0%nat [] [])
    = (mkEnv (set_nodes_to_commit [] (Fixture.graph_of 2 Fixture.five [])) c'
         [["GRAPH.QUERY"; "g"; "CREATE (n1:Person),(n2:Person)"; "--compact"];
          ["GRAPH.QUERY"; "g"; "CREATE (n3:Person),(n4:Person)"; "--compact"];
          ["GRAPH.QUERY"; "g"; "CREATE (n5:Person)"; "--compact"]] [],
       ok tt).
Proof.
  destruct (proj1 (commit_nodes_in_batches Fixture.decode_any Fixture.repr_plain
                     Fixture.edge_text nat unit Fixture.accept unit Fixture.wrap
                     (mkEnv (Fixture.graph_of 2 Fixture.five []) 0%nat [] []))
              2%nat
              ["(n1:Person)"; "(n2:Person)"; "(n3:Person)"; "(n4:Person)"; "(n5:Person)"]
              []
              (Nat.lt_0_succ 1) eq_refl eq_refl eq_refl
              (fun c cmd => ex_intro _ (S c) (ex_intro _ tt eq_refl))
              (fun g reply => ex_intro _ reply eq_refl))
    as [c1 [c2 [E _]]].
  exists c1. exact E.
Defined.

(** The connection refuses the second batch: the flush raises, the first two
    commands were handed over, and the five nodes are still pending. *)
Lemma flush_failure_keeps_pending_witness :
  snd (_commit_nodes Fixture.decode_any Fixture.repr_plain (Fixture.refuse_at 1)
         Fixture.wrap (mkEnv (Fixture.graph_of 2 Fixture.five []) 0%nat [] []))
  = inl (ForeignError "ResponseError")
  /\ _nodes_to_commit
       (self (fst (_commit_nodes Fixture.decode_any Fixture.repr_plain
                     (Fixture.refuse_at 1) Fixture.wrap
                     (mkEnv (Fixture.graph_of 2 Fixture.five []) 0%nat [] []))))
     = Fixture.five.
Proof.
  split; [reflexivity |].
  apply (proj1 (flush_failure_keeps_pending Fixture.decode_any Fixture.repr_plain
                  Fixture.edge_text nat unit (Fixture.refuse_at 1) unit Fixture.wrap
                  (mkEnv (Fixture.graph_of 2 Fixture.five []) 0%nat [] []))
           _ (ForeignError "ResponseError")).
  reflexivity.
Defined.

Arguments commit bytes_decode bytes_repr Edge_str {Conn Reply} execute_command
  {QueryResult} QueryResult_new.
Arguments merge bytes_decode bytes_repr {Conn Reply} execute_command
  {QueryResult} QueryResult_new {A}.
Arguments add_node_body {Conn}.
Arguments add_nodes {Conn}.
Arguments with_edges {Conn}.
Arguments with_node {Conn}.

(* ================================================================= *)
(** ** The further statements at concrete inputs *)

(** One of the names of the tests, with the default replacement. *)
Lemma replace_symbols_gives_identifier_characters_witness :
  exists t,
    replace_symbols Sample.take_literally "B*39:45" "_" = ok t
    /\ String.length t = 7%nat
    /\ validate_cypher_identifier (Some t) true true = ([], ok true).
Proof.
  destruct (replace_symbols_gives_identifier_characters Sample.take_literally
              "B*39:45" eq_refl) as [t [E [L [_ [_ [_ V]]]]]].
  exists t. split; [exact E |]. split; [exact L |]. apply V. reflexivity.
Defined.

(** The names of the test [test_fix_invalid_names], with a replacement that
    is passed and not used. *)
Lemma replace_all_symbols_ignores_replacement_witness :
  replace_all_symbols Sample.take_literally Sample.invalid_hla_alleles "-"
  = ok Sample.valid_hla_alleles.
Proof.
  exact (proj1 (replace_all_symbols_ignores_replacement Sample.take_literally
                  Sample.invalid_hla_alleles "-" eq_refl)).
Defined.

(** Five pending nodes and a flush rate of zero. *)
Lemma zero_flush_rate_raises_before_sending_witness :
  _commit_nodes Fixture.decode_any Fixture.repr_plain Fixture.accept Fixture.wrap
    (mkEnv (Fixture.graph_of 0 Fixture.five []) 0%nat [] [])
  = (mkEnv (Fixture.graph_of 0 Fixture.five []) 0%nat [] [], raise ZeroDivisionError).
Proof.
  exact (proj1 (zero_flush_rate_raises_before_sending
                  Fixture.decode_any Fixture.repr_plain Fixture.edge_text
                  nat unit Fixture.accept unit Fixture.wrap
                  (mkEnv (Fixture.graph_of 0 Fixture.five []) 0%nat [] [])
                  "n1" (Fixture.person "n1") (tl Fixture.five) "(n1:Person)"
                  eq_refl eq_refl eq_refl)).
Defined.

(** Five pending nodes and a flush rate of minus two: one command. *)
Lemma negative_flush_rate_sends_one_command_witness :
  wire (fst (_commit_nodes Fixture.decode_any Fixture.repr_plain Fixture.accept
               Fixture.wrap
               (mkEnv (Fixture.graph_of (-2) Fixture.five []) 0%nat [] [])))
  = [["GRAPH.QUERY"; "g";
      "CREATE (n1:Person),(n2:Person),(n3:Person),(n4:Person),(n5:Person)";
      "--compact"]].
Proof.
  refine (proj2 (negative_flush_rate_sends_one_command
                   Fixture.decode_any Fixture.repr_plain
                   nat unit Fixture.accept unit Fixture.wrap
                   (mkEnv (Fixture.graph_of (-2) Fixture.five []) 0%nat [] [])
                   ["(n1:Person)"; "(n2:Person)"; "(n3:Person)"; "(n4:Person)";
                    "(n5:Person)"]
                   eq_refl _ eq_refl)).
  discriminate.
Defined.

(** Five nodes and an edge are committed; the second commit sends nothing. *)
Lemma commit_after_commit_sends_nothing_witness :
  commit Fixture.decode_any Fixture.repr_plain Fixture.edge_text Fixture.accept
    Fixture.wrap
    (fst (commit Fixture.decode_any Fixture.repr_plain Fixture.edge_text
            Fixture.accept Fixture.wrap
            (mkEnv (Fixture.graph_of 2 Fixture.five [Fixture.link "n1" "n2"])
               0%nat [] [])))
  = (fst (commit Fixture.decode_any Fixture.repr_plain Fixture.edge_text
            Fixture.accept Fixture.wrap
            (mkEnv (Fixture.graph_of 2 Fixture.five [Fixture.link "n1" "n2"])
               0%nat [] [])), ok tt).
Proof.
  refine (proj2 (proj2 (proj2 (proj2
            (commit_after_commit_sends_nothing
               Fixture.decode_any Fixture.repr_plain Fixture.edge_text
               nat unit Fixture.accept unit Fixture.wrap
               (mkEnv (Fixture.graph_of 2 Fixture.five [Fixture.link "n1" "n2"])
                  0%nat [] [])
               (fst (commit Fixture.decode_any Fixture.repr_plain Fixture.edge_text
                       Fixture.accept Fixture.wrap
                       (mkEnv (Fixture.graph_of 2 Fixture.five [Fixture.link "n1" "n2"])
                          0%nat [] [])))
               tt _))))).
  vm_compute. reflexivity.
Defined.

(** Merging a node into an empty graph registers nothing. *)
Lemma merge_is_not_mirrored_witness :
  nodes (self (fst (merge Fixture.decode_any Fixture.repr_plain Fixture.accept
                      Fixture.wrap
                      (Node_str Fixture.decode_any Fixture.repr_plain) Fixture.bob
                      (mkEnv Sample.empty_graph 0%nat [] [])))) = []
  /\ wire (fst (merge Fixture.decode_any Fixture.repr_plain Fixture.accept
                  Fixture.wrap
                  (Node_str Fixture.decode_any Fixture.repr_plain) Fixture.bob
                  (mkEnv Sample.empty_graph 0%nat [] [])))
     = [["GRAPH.QUERY"; "test_graph";
         "MERGE (a:Person{name:" ++ dq ++ "Bob" ++ dq ++ "})"; "--compact"]].
Proof.
  destruct (@merge_is_not_mirrored Fixture.decode_any Fixture.repr_plain
              nat unit Fixture.accept unit Fixture.wrap Node
              (Node_str Fixture.decode_any Fixture.repr_plain) Fixture.bob
              ("(a:Person{name:" ++ dq ++ "Bob" ++ dq ++ "})")
              (mkEnv Sample.empty_graph 0%nat [] []) eq_refl) as [_ [Hs Hw]].
  split; [now rewrite Hs | exact Hw].
Defined.

(** Two nodes are added to an empty graph, then the edge between them. *)
Lemma add_edge_after_both_nodes_witness :
  snd (add_edge (Fixture.link "n1" "n2") true
         (fst (add_node_body (Sample.no_draw 1) (Fixture.person "n2") true
                 (fst (add_node_body (Sample.no_draw 0) (Fixture.person "n1") true
                         (mkEnv Sample.empty_graph 0%nat [] []))))))
  = ok tt.
Proof.
  rewrite (proj1 (add_edge_after_both_nodes nat
                    (Sample.no_draw 0) (Sample.no_draw 1)
                    (Fixture.person "n1") (Fixture.person "n2") true true
                    (Fixture.link "n1" "n2") "n1" "n2"
                    (mkEnv Sample.empty_graph 0%nat [] [])
                    (fst (add_node_body (Sample.no_draw 0) (Fixture.person "n1") true
                            (mkEnv Sample.empty_graph 0%nat [] [])))
                    (fst (add_node_body (Sample.no_draw 1) (Fixture.person "n2") true
                            (fst (add_node_body (Sample.no_draw 0)
                                    (Fixture.person "n1") true
                                    (mkEnv Sample.empty_graph 0%nat [] [])))))
                    ltac:(vm_compute; reflexivity) ltac:(vm_compute; reflexivity)
                    eq_refl eq_refl)).
  reflexivity.
Defined.


(** The same alias added twice before a commit. *)
Lemma readded_alias_is_flushed_once_witness :
  exists c : nat,
    _commit_nodes Fixture.decode_any Fixture.repr_plain Fixture.accept Fixture.wrap
      (with_node "a" Fixture.bob
         (with_node "a" (Fixture.person "a") (mkEnv Sample.empty_graph 0%nat [] [])))
    = (mkEnv (set_nodes_to_commit []
                (self (with_node "a" Fixture.bob
                         (with_node "a" (Fixture.person "a")
                            (mkEnv Sample.empty_graph 0%nat [] [])))))
         c
         [["GRAPH.QUERY"; "test_graph";
           "CREATE (a:Person{name:" ++ dq ++ "Bob" ++ dq ++ "})"; "--compact"]]
         [], ok tt).
Proof.
  exact (proj2 (proj2 (readded_alias_is_flushed_once
                  Fixture.decode_any Fixture.repr_plain
                  nat unit Fixture.accept unit Fixture.wrap
                  "a" (Fixture.person "a") Fixture.bob
                  (mkEnv Sample.empty_graph 0%nat [] []) 100%nat
                  ("(a:Person{name:" ++ dq ++ "Bob" ++ dq ++ "})")
                  eq_refl (Nat.lt_0_succ 99) eq_refl eq_refl
                  (fun c cmd => ex_intro _ (S c) (ex_intro _ tt eq_refl))
                  (fun g reply => ex_intro _ reply eq_refl)))).
Defined.
